(** * veto-mvvm: the [LocatorService] dependency-injection container

    A shallow embedding of [src/LocatorService.ts] and the properties of its
    registry established on that embedding.

    The container keeps three JavaScript [Map]s keyed by strings.  Two of
    them hold caller-supplied closures ([Factory<T> = () => T]) that the
    container calls from [get].  A closure is arbitrary caller code: it can
    allocate, mutate the caller's own variables, throw, and call back into
    the very same container (the README wires services this way:
    [() => new UsersService(locate('usersApi'))]).  Closures are therefore
    modelled as small programs over the container's own API and are run by
    an interpreter that threads one shared world through every call.  Since
    such a program may call itself through the container without end, the
    interpreter takes a budget of steps.

    The source keeps no log.  To speak of "how often the constructor ran" or
    "no [unregister] in between", the model adds a ghost trace to the world;
    it is written by [note] and read by nothing in the code. *)

From stdpp Require Import gmap strings list fin_maps.
From Stdlib Require Import ZArith Ascii String.

Local Open Scope string_scope.

(** * Part I: the model

    ** JavaScript values and exceptions *)

(** The registry stores [unknown].  Primitive values are compared by content
    and objects by reference, which is what [===] and [toBe] observe. *)
Inductive Value : Type :=
  | VUndefined
  | VBool (b : bool)
  | VNum (n : Z)
  | VStr (s : string)
  | VObj (addr : nat).

#[global] Instance Value_eq_dec : EqDecision Value.
Proof. solve_decision. Defined.

(** [new Error(message)] *)
Inductive Exn : Type :=
  | Error (message : string).

#[global] Instance Exn_eq_dec : EqDecision Exn.
Proof. solve_decision. Defined.

(** ** Closures handed to the container *)

(** [type Factory<T> = () => T].  The body of a closure is a tree of the
    effects it performs; each node carries the rest of the body as a
    function of the effect's result ([Increment] passes on the value of the
    variable after the increment). *)
Inductive Factory : Type :=
  | Return (v : Value)                                  (* return v *)
  | Throw (e : Exn)                                     (* throw e *)
  | NewObject (k : Value -> Factory)                    (* const o = {...} *)
  | Increment (x : string) (k : Z -> Factory)           (* x++ on a caller variable *)
  | CallGet (key : string) (k : Value -> Factory)       (* locate(key) *)
  | CallIsRegistered (key : string) (k : bool -> Factory)
  | CallRegisterSingleton (key : string) (instance : Value) (k : Factory)
  | CallRegisterLazySingleton (key : string) (factory : Factory) (k : Factory)
  | CallRegisterFactory (key : string) (factory : Factory) (k : Factory)
  | CallUnregister (key : string) (k : Factory)
  | CallReset (k : Factory)
  | Try (body : Factory) (k : Exn + Value -> Factory).  (* try { body } catch (e) { } *)

(** ** The container and the world around it *)

(** The three private fields of [class LocatorService]. *)
Record LocatorService : Type := mkLocator {
  singletons : gmap string Value;
  lazySingletonFactories : gmap string Factory;
  factories : gmap string Factory;
}.

(** Ghost events.  The source keeps no log; the trace exists only so that
    "the constructor ran [n] times", "no [unregister] happened in between"
    and "the constructor did not ask for its own key" can be stated. *)
Inductive Event : Type :=
  | Got (key : string)            (* get(key) was entered *)
  | Constructed (key : string)    (* get(key) executed factory() *)
  | Unregistered (key : string)   (* unregister(key) was entered *)
  | ResetAll.                     (* reset() was entered *)

#[global] Instance Event_eq_dec : EqDecision Event.
Proof. solve_decision. Defined.

(** Everything a call can read or change: the one container instance
    ([LocatorService._instance]), the allocator that gives objects their
    identity, the caller's own mutable variables, and the ghost trace
    (newest event first). *)
Record World : Type := mkWorld {
  locator : LocatorService;
  heap_next : nat;
  vars : gmap string Z;
  trace : list Event;
}.

(** [new LocatorService()]: three empty maps. *)
Definition new_LocatorService : LocatorService :=
  {| singletons := ∅; lazySingletonFactories := ∅; factories := ∅ |}.

Definition initial_world : World :=
  {| locator := new_LocatorService; heap_next := 0; vars := ∅; trace := [] |}.

(** ** A state-and-exception monad for synchronous calls *)

(** A call either returns, or throws, in both cases leaving a world behind;
    [OutOfFuel] stands for a call that has not finished within the
    interpreter's budget (a closure may recurse without end). *)
Inductive Outcome (A : Type) : Type :=
  | Returns (a : A) (w : World)
  | Throws (e : Exn) (w : World)
  | OutOfFuel.
Arguments Returns {A} a w.
Arguments Throws {A} e w.
Arguments OutOfFuel {A}.

Definition M (A : Type) : Type := World -> Outcome A.

#[global] Instance M_ret : MRet M := fun A a w => Returns a w.
#[global] Instance M_bind : MBind M := fun A B k m w =>
  match m w with
  | Returns a w' => k a w'
  | Throws e w' => Throws e w'
  | OutOfFuel => OutOfFuel
  end.

Definition throw {A : Type} (e : Exn) : M A := fun w => Throws e w.
Definition this : M LocatorService := fun w => Returns (locator w) w.

Definition with_locator (f : LocatorService -> LocatorService) (w : World) : World :=
  {| locator := f (locator w); heap_next := heap_next w;
     vars := vars w; trace := trace w |}.
Definition update (f : LocatorService -> LocatorService) : M unit := fun w =>
  Returns tt (with_locator f w).

Definition noted (e : Event) (w : World) : World :=
  {| locator := locator w; heap_next := heap_next w;
     vars := vars w; trace := e :: trace w |}.
Definition note (e : Event) : M unit := fun w => Returns tt (noted e w).

(** The world a finished call leaves behind. *)
Definition world_after {A : Type} (o : Outcome A) : option World :=
  match o with
  | Returns _ w => Some w
  | Throws _ w => Some w
  | OutOfFuel => None
  end.

(** ** [Map] operations used by the class *)

(** [m.has(key)] *)
Definition has {V : Type} (m : gmap string V) (key : string) : bool :=
  match m !! key with Some _ => true | None => false end.

Definition set_singleton (key : string) (instance : Value) (s : LocatorService) :=
  {| singletons := <[key := instance]> (singletons s);
     lazySingletonFactories := lazySingletonFactories s;
     factories := factories s |}.

Definition set_lazySingletonFactory (key : string) (factory : Factory) (s : LocatorService) :=
  {| singletons := singletons s;
     lazySingletonFactories := <[key := factory]> (lazySingletonFactories s);
     factories := factories s |}.

Definition set_factory (key : string) (factory : Factory) (s : LocatorService) :=
  {| singletons := singletons s;
     lazySingletonFactories := lazySingletonFactories s;
     factories := <[key := factory]> (factories s) |}.

Definition delete_singleton (key : string) (s : LocatorService) :=
  {| singletons := delete key (singletons s);
     lazySingletonFactories := lazySingletonFactories s;
     factories := factories s |}.

Definition delete_lazySingletonFactory (key : string) (s : LocatorService) :=
  {| singletons := singletons s;
     lazySingletonFactories := delete key (lazySingletonFactories s);
     factories := factories s |}.

Definition delete_factory (key : string) (s : LocatorService) :=
  {| singletons := singletons s;
     lazySingletonFactories := lazySingletonFactories s;
     factories := delete key (factories s) |}.

(** ** Error messages *)

Definition dquote : string := String (ascii_of_nat 34) EmptyString.

(** [`Service with key "${key}" is already registered`] *)
Definition already_registered_message (key : string) : string :=
  "Service with key " ++ dquote ++ key ++ dquote ++ " is already registered".

(** The three-line template literal of [get]. *)
Definition not_registered_message (key : string) : string :=
  ("Service with key " ++ dquote ++ key ++ dquote ++ " is not registered. ") ++
  "Make sure to register it using registerSingleton(), registerLazySingleton(), or registerFactory() " ++
  "before attempting to access it.".

(** The spec's names for the two errors the container raises itself. *)
Definition DuplicateKeyError (key : string) : Exn :=
  Error (already_registered_message key).
Definition NotRegisteredError (key : string) : Exn :=
  Error (not_registered_message key).

(** ** The methods of [LocatorService] *)

(** [isRegistered(key)] *)
Definition isRegistered_in (s : LocatorService) (key : string) : bool :=
  has (singletons s) key || has (lazySingletonFactories s) key || has (factories s) key.

Definition isRegistered (key : string) : M bool :=
  s ← this; mret (isRegistered_in s key).

(** [registerSingleton(key, instance)] *)
Definition registerSingleton (key : string) (instance : Value) : M Value :=
  registered ← isRegistered key;
  if registered : bool then throw (Error (already_registered_message key))
  else update (set_singleton key instance);; mret instance.

(** [registerLazySingleton(key, factory)] *)
Definition registerLazySingleton (key : string) (factory : Factory) : M unit :=
  registered ← isRegistered key;
  if registered : bool then throw (Error (already_registered_message key))
  else update (set_lazySingletonFactory key factory).

(** [registerFactory(key, factory)] *)
Definition registerFactory (key : string) (factory : Factory) : M unit :=
  registered ← isRegistered key;
  if registered : bool then throw (Error (already_registered_message key))
  else update (set_factory key factory).

(** [unregister(key)] *)
Definition unregister (key : string) : M unit :=
  note (Unregistered key);;
  update (delete_singleton key);;
  update (delete_lazySingletonFactory key);;
  update (delete_factory key).

(** [reset()]: the three [clear()] calls. *)
Definition clear_singletons (s : LocatorService) :=
  {| singletons := ∅; lazySingletonFactories := lazySingletonFactories s;
     factories := factories s |}.
Definition clear_lazySingletonFactories (s : LocatorService) :=
  {| singletons := singletons s; lazySingletonFactories := ∅;
     factories := factories s |}.
Definition clear_factories (s : LocatorService) :=
  {| singletons := singletons s;
     lazySingletonFactories := lazySingletonFactories s; factories := ∅ |}.

Definition reset : M unit :=
  note ResetAll;;
  update clear_singletons;;
  update clear_lazySingletonFactories;;
  update clear_factories.

(** [get(key)].  [call] is the JavaScript call of a closure; each
    [has]/[get] pair of the source is one lookup here.  The [note] steps are
    ghost. *)
Definition get (call : Factory -> M Value) (key : string) : M Value :=
  note (Got key);;
  s ← this;
  match singletons s !! key with
  | Some instance => mret instance
  | None =>
    match lazySingletonFactories s !! key with
    | Some factory =>
        note (Constructed key);;
        instance ← call factory;
        update (set_singleton key instance);;
        update (delete_lazySingletonFactory key);;
        mret instance
    | None =>
      match factories s !! key with
      | Some factory =>
          note (Constructed key);;
          call factory
      | None => throw (Error (not_registered_message key))
      end
    end
  end.

(** ** Running a closure *)

Definition allocated (w : World) : World :=
  {| locator := locator w; heap_next := S (heap_next w);
     vars := vars w; trace := trace w |}.
Definition new_object : M Value := fun w =>
  Returns (VObj (heap_next w)) (allocated w).

Definition incremented (x : string) (w : World) : World :=
  {| locator := locator w; heap_next := heap_next w;
     vars := <[x := (default 0 (vars w !! x) + 1)%Z]> (vars w); trace := trace w |}.
Definition increment (x : string) : M Z := fun w =>
  Returns (default 0 (vars w !! x) + 1)%Z (incremented x w).

(** [try { body } catch (e) { ... }]: the outcome of [body], as a value. *)
Definition try_catch (m : M Value) : M (Exn + Value) := fun w =>
  match m w with
  | Returns v w' => Returns (inr v) w'
  | Throws e w' => Returns (inl e) w'
  | OutOfFuel => OutOfFuel
  end.

(** One unit of fuel is spent per node of a closure body; a nested [get]
    runs the closures it meets with the fuel that is left. *)
Fixpoint run (fuel : nat) (f : Factory) : M Value :=
  match fuel with
  | O => fun _ => OutOfFuel
  | S n =>
    match f with
    | Return v => mret v
    | Throw e => throw e
    | NewObject k => o ← new_object; run n (k o)
    | Increment x k => z ← increment x; run n (k z)
    | CallGet key k => v ← get (run n) key; run n (k v)
    | CallIsRegistered key k => b ← isRegistered key; run n (k b)
    | CallRegisterSingleton key instance k =>
        registerSingleton key instance;; run n k
    | CallRegisterLazySingleton key factory k =>
        registerLazySingleton key factory;; run n k
    | CallRegisterFactory key factory k =>
        registerFactory key factory;; run n k
    | CallUnregister key k => unregister key;; run n k
    | CallReset k => reset;; run n k
    | Try body k => r ← try_catch (run n body); run n (k r)
    end
  end.

(** [locator.get(key)] as the caller sees it. *)
Definition locate (fuel : nat) (key : string) : M Value := get (run fuel) key.

(** ** Calls made by the application *)

(** One call on the public API, as the application (or a test) makes it. *)
Inductive Call : Type :=
  | RegisterSingleton (key : string) (instance : Value)
  | RegisterLazySingleton (key : string) (factory : Factory)
  | RegisterFactory (key : string) (factory : Factory)
  | Get (key : string)
  | IsRegistered (key : string)
  | Unregister (key : string)
  | Reset.

(** A [void] method returns [undefined]. *)
Definition perform (fuel : nat) (c : Call) : M Value :=
  match c with
  | RegisterSingleton key instance => registerSingleton key instance
  | RegisterLazySingleton key factory =>
      registerLazySingleton key factory;; mret VUndefined
  | RegisterFactory key factory => registerFactory key factory;; mret VUndefined
  | Get key => locate fuel key
  | IsRegistered key => b ← isRegistered key; mret (VBool b)
  | Unregister key => unregister key;; mret VUndefined
  | Reset => reset;; mret VUndefined
  end.

(** A sequence of calls, each wrapped in [try]/[catch] by the caller, so
    that a call that throws does not stop the ones after it.  [None] when
    some call does not finish within the fuel. *)
Fixpoint perform_all (fuel : nat) (cs : list Call) (w : World) : option World :=
  match cs with
  | [] => Some w
  | c :: cs' =>
      match world_after (perform fuel c w) with
      | Some w' => perform_all fuel cs' w'
      | None => None
      end
  end.

(** [n] consecutive [get(key)] calls, collecting what they return. *)
Fixpoint locate_n (fuel : nat) (key : string) (n : nat) : M (list Value) :=
  match n with
  | O => mret []
  | S n' => v ← locate fuel key; vs ← locate_n fuel key n'; mret (v :: vs)
  end.

(** States reachable from a fresh container by calls satisfying [allowed]. *)
Inductive reachable_by (allowed : Call -> Prop) : World -> Prop :=
  | reachable_by_initial : reachable_by allowed initial_world
  | reachable_by_call fuel c w w' :
      reachable_by allowed w -> allowed c ->
      world_after (perform fuel c w) = Some w' ->
      reachable_by allowed w'.

(** Every state the container can reach, whatever the constructors do. *)
Definition reachable : World -> Prop := reachable_by (fun _ => True).

(** The call has come to an end within the budget. *)
Definition finished {A : Type} (o : Outcome A) : Prop :=
  match o with OutOfFuel => False | _ => True end.

(** * Part II: the vocabulary of the statements *)

(** The world after an outcome is related to the world before it. *)
Definition along (Q : World -> World -> Prop) {A : Type} (w : World) (o : Outcome A) : Prop :=
  match o with
  | Returns _ w' => Q w w'
  | Throws _ w' => Q w w'
  | OutOfFuel => True
  end.

(** [needle] occurs somewhere inside [hay]. *)
Definition contains (needle hay : string) : Prop :=
  exists pre post, hay = pre ++ needle ++ post.

(** [this.singletons.set(key, instance); this.lazySingletonFactories.delete(key)]
    applied to the world the constructor returned in. *)
Definition promoted (key : string) (instance : Value) (w : World) : World :=
  with_locator (delete_lazySingletonFactory key)
    (with_locator (set_singleton key instance) w).

(** The world in which [get(key)] calls the constructor it has found. *)
Definition constructing (key : string) (w : World) : World :=
  noted (Constructed key) (noted (Got key) w).

(** ** What follows a call made from inside a constructor *)

(** A method of the container may be called while [get] calls are still in
    progress further up the stack, namely from inside a constructor.  What
    happens to the container after such a call has returned is then: calls
    made by the application, the rest of the bodies of the constructors
    that are running, and, each time one of them returns to the [get] that
    called it for a lazy singleton, the two statements by which that [get]
    stores the result ([promoted]). *)
Inductive Step : Type :=
  | Calls (c : Call)
  | Continues (f : Factory)
  | Completes (key : string) (instance : Value).

Definition step (fuel : nat) (s : Step) (w : World) : option World :=
  match s with
  | Calls c => world_after (perform fuel c w)
  | Continues f => world_after (run fuel f w)
  | Completes key instance => Some (promoted key instance w)
  end.

Fixpoint afterwards (fuel : nat) (steps : list Step) (w : World) : option World :=
  match steps with
  | [] => Some w
  | s :: steps' =>
      match step fuel s w with
      | Some w' => afterwards fuel steps' w'
      | None => None
      end
  end.

(** The step is not the completion of a [get(key)] that was in progress. *)
Definition not_completing (key : string) (s : Step) : Prop :=
  match s with
  | Completes j _ => j <> key
  | _ => True
  end.

(** ** Reading the ghost trace *)

Fixpoint occurrences (e : Event) (t : list Event) : nat :=
  match t with
  | [] => 0
  | x :: t' => (if decide (x = e) then 1 else 0) + occurrences e t'
  end.

(** How often [get(key)] was entered, how often [get] called the
    constructor registered under [key], and how often the entry of [key] was
    taken away ([unregister(key)] or [reset()]). *)
Definition gets (key : string) (t : list Event) : nat := occurrences (Got key) t.
Definition constructions (key : string) (t : list Event) : nat :=
  occurrences (Constructed key) t.
Definition removals (key : string) (t : list Event) : nat :=
  occurrences (Unregistered key) t + occurrences ResetAll t.

(** The trace only grows. *)
Definition grows (w w' : World) : Prop :=
  forall e, occurrences e (trace w) <= occurrences e (trace w').

(** ** Relations that hold along every call *)

(** What it takes for a relation between the world before and the world
    after to hold along every call: it holds across each elementary step
    the container or a closure can take, and composes. *)
Record respected (Q : World -> World -> Prop) : Prop := {
  resp_refl : forall w, Q w w;
  resp_trans : forall a b c, Q a b -> Q b c -> Q a c;
  resp_alloc : forall w, Q w (allocated w);
  resp_incr : forall x w, Q w (incremented x w);
  resp_regS : forall key v w,
    isRegistered_in (locator w) key = false ->
    Q w (with_locator (set_singleton key v) w);
  resp_regL : forall key f w,
    isRegistered_in (locator w) key = false ->
    Q w (with_locator (set_lazySingletonFactory key f) w);
  resp_regF : forall key f w,
    isRegistered_in (locator w) key = false ->
    Q w (with_locator (set_factory key f) w);
  resp_unregister : forall key w w', unregister key w = Returns tt w' -> Q w w';
  resp_reset : forall w w', reset w = Returns tt w' -> Q w w';
  resp_got : forall key w,
    is_Some (singletons (locator w) !! key) \/ factories (locator w) !! key = None ->
    Q w (noted (Got key) w);
  resp_construct : forall key w,
    singletons (locator w) !! key = None -> Q w (constructing key w);
  resp_promote : forall key factory instance w w1,
    singletons (locator w) !! key = None ->
    lazySingletonFactories (locator w) !! key = Some factory ->
    Q (constructing key w) w1 -> Q w (promoted key instance w1);
}.

(** Between two worlds, the constructor registered under [key] has been
    called at most as often as [get(key)] has been entered. *)
Definition constructed_within_gets (key : string) (w w' : World) : Prop :=
  grows w w' /\
  constructions key (trace w') + gets key (trace w) <=
    gets key (trace w') + constructions key (trace w).

(** While the entry of [key] is not taken away, a value stored in
    [singletons] under [key] stays there and no constructor is called for
    [key]. *)
Definition singleton_kept (key : string) (v : Value) (w w' : World) : Prop :=
  grows w w' /\
  (removals key (trace w') = removals key (trace w) ->
   singletons (locator w) !! key = Some v ->
   singletons (locator w') !! key = Some v /\
   constructions key (trace w') = constructions key (trace w)).

(** While the entry of [key] is not taken away and [get(key)] is not
    entered, a constructor waiting in [lazySingletonFactories] under [key]
    keeps waiting there. *)
Definition lazy_kept (key : string) (f : Factory) (w w' : World) : Prop :=
  grows w w' /\
  (removals key (trace w') = removals key (trace w) ->
   gets key (trace w') = gets key (trace w) ->
   lazySingletonFactories (locator w) !! key = Some f ->
   singletons (locator w) !! key = None ->
   lazySingletonFactories (locator w') !! key = Some f /\
   singletons (locator w') !! key = None).

(** The key is held by [factories] and by no other map. *)
Definition factory_only (key : string) (f : Factory) (w : World) : Prop :=
  factories (locator w) !! key = Some f /\
  singletons (locator w) !! key = None /\
  lazySingletonFactories (locator w) !! key = None.

(** While the entry of [key] is not taken away, a key held by [factories]
    alone stays held by [factories] alone, with the same constructor, and
    that constructor is called once for each [get(key)] that is entered. *)
Definition factory_counted (key : string) (f : Factory) (w w' : World) : Prop :=
  grows w w' /\
  (removals key (trace w') = removals key (trace w) ->
   factory_only key f w ->
   factory_only key f w' /\
   constructions key (trace w') + gets key (trace w) =
     gets key (trace w') + constructions key (trace w)).

(** Object identities are handed out in increasing order. *)
Definition heap_grows (w w' : World) : Prop := heap_next w <= heap_next w'.

(** Constructors that make no call on the container at all. *)
Inductive container_free : Factory -> Prop :=
  | cf_return v : container_free (Return v)
  | cf_throw e : container_free (Throw e)
  | cf_new k : (forall o, container_free (k o)) -> container_free (NewObject k)
  | cf_increment x k :
      (forall z, container_free (k z)) -> container_free (Increment x k)
  | cf_try body k :
      container_free body -> (forall r, container_free (k r)) ->
      container_free (Try body k).

(** The container and the ghost trace are as they were. *)
Definition container_untouched (w w' : World) : Prop :=
  locator w' = locator w /\ trace w' = trace w.

(** The constructor hands out an object it has allocated during the call. *)
Definition returns_new_object (fuel : nat) (f : Factory) : Prop :=
  forall w v w', run fuel f w = Returns v w' ->
    exists a, v = VObj a /\ heap_next w <= a < heap_next w'.

(** ** Disjointness of the three maps *)

(** In how many of the three maps the key is present. *)
Definition holders (s : LocatorService) (key : string) : nat :=
  Nat.b2n (has (singletons s) key) +
  Nat.b2n (has (lazySingletonFactories s) key) +
  Nat.b2n (has (factories s) key).

(** Each key is held by at most one map. *)
Definition disjoint_keys (s : LocatorService) : Prop :=
  forall key, holders s key <= 1.

(** Constructors that use the container only to look services up: they may
    call [get] and [isRegistered] but never register, unregister or reset. *)
Inductive only_locates : Factory -> Prop :=
  | ol_return v : only_locates (Return v)
  | ol_throw e : only_locates (Throw e)
  | ol_new k : (forall o, only_locates (k o)) -> only_locates (NewObject k)
  | ol_increment x k :
      (forall z, only_locates (k z)) -> only_locates (Increment x k)
  | ol_get key k : (forall v, only_locates (k v)) -> only_locates (CallGet key k)
  | ol_isRegistered key k :
      (forall b, only_locates (k b)) -> only_locates (CallIsRegistered key k)
  | ol_try body k :
      only_locates body -> (forall r, only_locates (k r)) ->
      only_locates (Try body k).

(** Calls whose constructor argument, if any, only looks services up. *)
Definition registers_locating_constructors (c : Call) : Prop :=
  match c with
  | RegisterLazySingleton _ f => only_locates f
  | RegisterFactory _ f => only_locates f
  | _ => True
  end.

(** Every constructor the container holds only looks services up. *)
Definition stored_only_locate (s : LocatorService) : Prop :=
  (forall key f, lazySingletonFactories s !! key = Some f -> only_locates f) /\
  (forall key f, factories s !! key = Some f -> only_locates f).

(** Constructors that take no registration away while they run: they
    never call [unregister] or [reset], and neither do the constructors
    they register.  They may look services up and register new ones. *)
Inductive never_removes : Factory -> Prop :=
  | nr_return v : never_removes (Return v)
  | nr_throw e : never_removes (Throw e)
  | nr_new k : (forall o, never_removes (k o)) -> never_removes (NewObject k)
  | nr_increment x k :
      (forall z, never_removes (k z)) -> never_removes (Increment x k)
  | nr_get key k : (forall v, never_removes (k v)) -> never_removes (CallGet key k)
  | nr_isRegistered key k :
      (forall b, never_removes (k b)) -> never_removes (CallIsRegistered key k)
  | nr_registerSingleton key instance k :
      never_removes k -> never_removes (CallRegisterSingleton key instance k)
  | nr_registerLazySingleton key factory k :
      never_removes factory -> never_removes k ->
      never_removes (CallRegisterLazySingleton key factory k)
  | nr_registerFactory key factory k :
      never_removes factory -> never_removes k ->
      never_removes (CallRegisterFactory key factory k)
  | nr_try body k :
      never_removes body -> (forall r, never_removes (k r)) ->
      never_removes (Try body k).

(** Calls whose constructor argument, if any, never removes.  The
    application itself may call [unregister] and [reset]. *)
Definition registers_constructors_that_never_remove (c : Call) : Prop :=
  match c with
  | RegisterLazySingleton _ f => never_removes f
  | RegisterFactory _ f => never_removes f
  | _ => True
  end.

(** No constructor the container holds removes. *)
Definition stored_never_remove (s : LocatorService) : Prop :=
  (forall key f, lazySingletonFactories s !! key = Some f -> never_removes f) /\
  (forall key f, factories s !! key = Some f -> never_removes f).

(** The invariant behind C2. *)
Definition settled (w : World) : Prop :=
  disjoint_keys (locator w) /\ stored_never_remove (locator w).

(** The key is held by [singletons] or by [lazySingletonFactories]. *)
Definition promotable (s : LocatorService) (key : string) : Prop :=
  is_Some (singletons s !! key) \/ is_Some (lazySingletonFactories s !! key).

(** What a constructor that never removes preserves: the invariant, and
    every key held by [singletons] or [lazySingletonFactories] is still
    held by one of the two (so that one looked up as a lazy singleton has
    not become a factory by the time [get] promotes it). *)
Definition settled_step (w w' : World) : Prop :=
  settled w' /\
  forall key, promotable (locator w) key -> promotable (locator w') key.

(** ** Closures, calls and worlds of the concrete runs *)

(** [() => new UsersApi()] *)
Definition usersApi_factory : Factory := NewObject (fun o => Return o).

(** [() => new UsersService(locate('usersApi'))], as in the README. *)
Definition usersService_factory : Factory :=
  CallGet "usersApi" (fun _ => NewObject (fun o => Return o)).

(** [() => { callCount++; return { value: 'lazy' }; }], as in the tests. *)
Definition counting_factory : Factory :=
  Increment "callCount" (fun _ => NewObject (fun o => Return o)).

(** [() => { locator.unregister('k'); locator.registerFactory('k', () => 1);
    return 0; }] *)
Definition reregistering_factory : Factory :=
  CallUnregister "k"
    (CallRegisterFactory "k" (Return (VNum 1)) (Return (VNum 0))).

(** [() => { calls++; if (calls === 1) locator.get('k'); return {}; }] *)
Definition self_asking_factory : Factory :=
  Increment "calls" (fun n =>
    if (n =? 1)%Z then CallGet "k" (fun _ => NewObject (fun o => Return o))
    else NewObject (fun o => Return o)).

(** [() => { locator.unregister('k'); locator.registerSingleton('k', 1);
    return 0; }] *)
Definition self_registering_factory : Factory :=
  CallUnregister "k" (CallRegisterSingleton "k" (VNum 1) (Return (VNum 0))).

(** The world in which that constructor calls [registerSingleton]. *)
Definition self_registering_midway : World :=
  default initial_world
    (world_after (unregister "k"
       (constructing "k" (with_locator (set_lazySingletonFactory "k"
                                          self_registering_factory) initial_world)))).

(** [() => new Service(locate('dep'))] under ['k'], and under ['dep']
    [() => { asked++; if (asked === 1) locate('k'); return {}; }]: the
    constructor of ['k'] never asks for ['k'] itself. *)
Definition depending_factory : Factory :=
  CallGet "dep" (fun _ => NewObject (fun o => Return o)).
Definition asking_back_factory : Factory :=
  Increment "asked" (fun n =>
    if (n =? 1)%Z then CallGet "k" (fun _ => NewObject (fun o => Return o))
    else NewObject (fun o => Return o)).
Definition indirect_calls : list Call :=
  [ RegisterLazySingleton "k" depending_factory;
    RegisterLazySingleton "dep" asking_back_factory ].

(** [() => { const dep = locate('dep'); done++;
    if (done === 2) throw new Error('boom'); return {}; }] *)
Definition twice_failing_factory : Factory :=
  CallGet "dep" (fun _ => Increment "done" (fun n =>
    if (n =? 2)%Z then Throw (Error "boom") else NewObject (fun o => Return o))).
Definition indirect_failing_calls : list Call :=
  [ RegisterLazySingleton "k" twice_failing_factory;
    RegisterLazySingleton "dep" asking_back_factory ].



(** The world after a sequence of calls on a fresh container. *)
Definition after_calls (fuel : nat) (cs : list Call) : World :=
  default initial_world (perform_all fuel cs initial_world).

Definition overlap_calls : list Call :=
  [ RegisterLazySingleton "k" reregistering_factory; Get "k" ].

(** [() => { locator.registerLazySingleton('helper', () => ({}));
    locator.registerFactory('dto', () => ({})); return locate('helper'); }] *)
Definition wiring_factory : Factory :=
  CallRegisterLazySingleton "helper" usersApi_factory
    (CallRegisterFactory "dto" usersApi_factory
       (CallGet "helper" (fun v => Return v))).

(** A constructor that registers while it runs; the application itself
    unregisters. *)
Definition wiring_calls : list Call :=
  [ RegisterLazySingleton "app" wiring_factory; Get "app"; Get "dto";
    Unregister "helper"; Get "app" ].

(** Worlds met in the runs below. *)
Definition with_lazy (key : string) (f : Factory) (w : World) : World :=
  with_locator (set_lazySingletonFactory key f) w.
Definition with_factory (key : string) (f : Factory) (w : World) : World :=
  with_locator (set_factory key f) w.

Definition lazy_registered : World := with_lazy "lazy" counting_factory initial_world.
Definition lazy_waiting : World := with_factory "factory" counting_factory lazy_registered.
Definition lazy_resolved : World :=
  promoted "lazy" (VObj 0)
    (allocated (incremented "callCount" (constructing "lazy" lazy_waiting))).



Definition dto_calls : list Call :=
  [ RegisterLazySingleton "usersApi" usersApi_factory;
    RegisterFactory "userDto" usersService_factory ].

Definition factory_registered : World :=
  with_factory "factory" counting_factory initial_world.
Definition factory_used : World :=
  default factory_registered (world_after (locate_n 3 "factory" 3 factory_registered)).

(** * Part II, continued: vocabulary for further properties of the container *)

(** [get(key)] finds no singleton under [key] and will call [f]: the key is
    a lazy singleton, or (after the same test on the lazy map) a factory. *)
Definition resolves_with (key : string) (f : Factory) (w : World) : Prop :=
  singletons (locator w) !! key = None /\
  (lazySingletonFactories (locator w) !! key = Some f \/
   (lazySingletonFactories (locator w) !! key = None /\
    factories (locator w) !! key = Some f)).

(** The two containers hold the same under [key], map by map. *)
Definition same_entries (s t : LocatorService) (key : string) : Prop :=
  singletons t !! key = singletons s !! key /\
  lazySingletonFactories t !! key = lazySingletonFactories s !! key /\
  factories t !! key = factories s !! key.

(** Nothing is taken away and nothing is replaced: singletons keep their
    values, the factories are the same, and a lazy singleton either still
    waits or has become a singleton. *)
Definition only_promotes (w w' : World) : Prop :=
  stored_only_locate (locator w') /\
  factories (locator w') = factories (locator w) /\
  (forall j v, singletons (locator w) !! j = Some v ->
               singletons (locator w') !! j = Some v) /\
  (forall j,
     lazySingletonFactories (locator w') !! j =
       lazySingletonFactories (locator w) !! j \/
     (is_Some (lazySingletonFactories (locator w) !! j) /\
      lazySingletonFactories (locator w') !! j = None /\
      is_Some (singletons (locator w') !! j))).

(** ** A call stack of bounded depth *)

(** A JavaScript engine gives a program a call stack of finite size.  The
    call that would exceed it throws
    [RangeError: Maximum call stack size exceeded], an [Error] like any
    other: it propagates through the callers and [catch] catches it. *)
Definition RangeError : Exn := Error "Maximum call stack size exceeded".

(** Running a closure on a stack that has room for [depth] nested
    constructor calls.  What nests without bound in this program are the
    constructor calls made by [get]; the calls inside one constructor body
    follow one another and are taken to fit.  The size of the stack is the
    engine's affair, so the properties are stated for every [depth]. *)
Fixpoint run_on_stack (depth : nat) (f : Factory) {struct depth} : M Value :=
  match depth with
  | O => throw RangeError
  | S d =>
      (fix body (f : Factory) : M Value :=
         match f with
         | Return v => mret v
         | Throw e => throw e
         | NewObject k => o ← new_object; body (k o)
         | Increment x k => z ← increment x; body (k z)
         | CallGet key k => v ← get (run_on_stack d) key; body (k v)
         | CallIsRegistered key k => b ← isRegistered key; body (k b)
         | CallRegisterSingleton key instance k =>
             registerSingleton key instance;; body k
         | CallRegisterLazySingleton key factory k =>
             registerLazySingleton key factory;; body k
         | CallRegisterFactory key factory k =>
             registerFactory key factory;; body k
         | CallUnregister key k => unregister key;; body k
         | CallReset k => reset;; body k
         | Try b k => r ← try_catch (body b); body (k r)
         end) f
  end.

(** [locator.get(key)] called with room for [depth] nested constructor
    calls. *)
Definition locate_on_stack (depth : nat) (key : string) : M Value :=
  get (run_on_stack depth) key.

(** The last character of a string. *)
Fixpoint last_ascii (s : string) : option ascii :=
  match s with
  | EmptyString => None
  | String c EmptyString => Some c
  | String _ s' => last_ascii s'
  end.

(** ** Worlds of the concrete runs *)

(** [() => locate('b')] and [() => locate('a')] *)
Definition asks_for (key : string) : Factory := CallGet key (fun v => Return v).

Definition cycle_world : World :=
  with_factory "b" (asks_for "a") (with_lazy "a" (asks_for "b") initial_world).

(** [() => { try { return locate('a'); } catch (e) { return 0; } }] *)
Definition recovering_factory : Factory :=
  Try (CallGet "a" (fun v => Return v))
      (fun r => match r with inl _ => Return (VNum 0) | inr v => Return v end).

Definition recovering_world : World :=
  with_lazy "a" recovering_factory initial_world.

Definition service_without_api : World :=
  with_lazy "usersService" usersService_factory initial_world.

Definition readme_registered : World :=
  with_lazy "usersService" usersService_factory
    (with_lazy "usersApi" usersApi_factory initial_world).

Definition readme_api_built : World :=
  allocated (constructing "usersApi" (constructing "usersService" readme_registered)).

Definition readme_service_built : World :=
  allocated (promoted "usersApi" (VObj 0) readme_api_built).

Definition dto_world : World := after_calls 1 dto_calls.

Definition dto_resolved : World :=
  default dto_world (world_after (locate 4 "userDto" dto_world)).

(** * Part II, continued: the rest of [src/LocatorService.ts] *)

(** ** [static get I] *)

(** The class side: the static field [_instance] and the objects that
    [new LocatorService()] has made so far, each with its own three maps.
    An object is known by its address; addresses are handed out in order. *)
Record Statics : Type := mkStatics {
  _instance : option nat;
  objects : gmap nat LocatorService;
  allocations : nat;
}.

Definition no_statics : Statics :=
  {| _instance := None; objects := ∅; allocations := 0 |}.

(** [new LocatorService()]; the constructor is public. *)
Definition new_instance (c : Statics) : nat * Statics :=
  (allocations c,
   {| _instance := _instance c;
      objects := <[allocations c := new_LocatorService]> (objects c);
      allocations := S (allocations c) |}).

(** [LocatorService.I] *)
Definition LocatorService_I (c : Statics) : nat * Statics :=
  match _instance c with
  | Some a => (a, c)
  | None =>
      let (a, c') := new_instance c in
      (a, {| _instance := Some a; objects := objects c';
             allocations := allocations c' |})
  end.

(** A method call on the object at [a], seen as a change of its maps. *)
Definition on_instance (a : nat) (f : LocatorService -> LocatorService)
    (c : Statics) : Statics :=
  {| _instance := _instance c; objects := alter f a (objects c);
     allocations := allocations c |}.

(** What the code of a program does with the class. *)
Inductive ClassEvent : Type :=
  | ReadsI                                                     (* LocatorService.I *)
  | News                                                       (* new LocatorService() *)
  | CallsOn (a : nat) (f : LocatorService -> LocatorService).  (* a method call *)

(** The addresses returned by the successive [LocatorService.I] reads, and
    the class state at the end. *)
Fixpoint class_run (evs : list ClassEvent) (c : Statics) : list nat * Statics :=
  match evs with
  | [] => ([], c)
  | ReadsI :: evs' =>
      let (a, c1) := LocatorService_I c in
      let (rs, c2) := class_run evs' c1 in (a :: rs, c2)
  | News :: evs' => class_run evs' (snd (new_instance c))
  | CallsOn a f :: evs' => class_run evs' (on_instance a f c)
  end.

(** ** [useService] *)









(** How many [new LocatorService()] the program itself has asked for. *)
Fixpoint news (evs : list ClassEvent) : nat :=
  match evs with
  | [] => 0
  | News :: evs' => S (news evs')
  | _ :: evs' => news evs'
  end.



(** * Part II, continued: [src/useViewModel.tsx] *)

(** ** The ViewModel and the options of the hook *)

(** [interface ViewModel<A>]: the three fields the hook writes, and in
    [members] whatever else [create] put into the object. *)
Record ViewModel : Type := mkViewModel {
  arguments : Value;
  isInitialised : bool;
  isMounted : bool;
  members : Value;
}.

(** [interface UseViewModelOptions<T, A>].  [args] is the [arguments]
    option under the name the hook gives it ([undefined] when absent).
    [create] is taken to return; of the two optional callbacks the model
    keeps which function was passed, as a number. *)
Record UseViewModelOptions : Type := mkOptions {
  create : Value -> ViewModel;
  args : Value;
  onInitialise : option nat;
  onDispose : option nat;
}.

(** Ghost record of the calls the hook makes to the caller's functions. *)
Inductive Called : Type :=
  | CalledCreate (a : Value)
  | CalledOnInitialise (callback : nat) (vm : ViewModel)
  | CalledOnDispose (callback : nat) (vm : ViewModel).

(** What React keeps for one component instance between renders: the two
    refs, the [useState] and [useReducer] states, and the effect of the
    first render (its dependency list is empty, so React never replaces
    it).  [awaiting] counts the [initialize()] calls that are suspended at
    their [await]; [called] is ghost. *)
Record Hooks : Type := mkHooks {
  isMountedRef : bool;
  isInitialisedState : bool;
  forceUpdateState : nat;
  viewModelRef : option ViewModel;
  effect : option UseViewModelOptions;
  awaiting : nat;
  called : list Called;
}.

(** Before the first render: [useRef(true)], [useState(false)],
    [useReducer(.., 0)], [useRef(null)]. *)
Definition first_hooks : Hooks :=
  {| isMountedRef := true; isInitialisedState := false; forceUpdateState := 0;
     viewModelRef := None; effect := None; awaiting := 0; called := [] |}.

(** ** The body of [useViewModel] *)

(** One call of [useViewModel(options)] during a render: what it returns
    ([{...viewModel, rebuild}], of which the model keeps the ViewModel
    fields) and what React keeps afterwards. *)
Definition useViewModel (options : UseViewModelOptions) (h : Hooks)
    : ViewModel * Hooks :=
  let current :=
    match viewModelRef h with
    | None => create options (args options)
    | Some vm => vm
    end in
  let viewModel :=
    {| arguments := args options;
       isInitialised := isInitialisedState h;
       isMounted := isMountedRef h;
       members := members current |} in
  (viewModel,
   {| isMountedRef := isMountedRef h;
      isInitialisedState := isInitialisedState h;
      forceUpdateState := forceUpdateState h;
      viewModelRef := Some viewModel;
      effect := match effect h with None => Some options | Some e => Some e end;
      awaiting := awaiting h;
      called := match viewModelRef h with
                | None => CalledCreate (args options) :: called h
                | Some _ => called h
                end |}).

(** [if (isMountedRef.current) { setIsInitialised(true); }] *)
Definition initialize_ends (h : Hooks) : Hooks :=
  if isMountedRef h then
    {| isMountedRef := isMountedRef h; isInitialisedState := true;
       forceUpdateState := forceUpdateState h; viewModelRef := viewModelRef h;
       effect := effect h; awaiting := awaiting h; called := called h |}
  else h.

(** [initialize()] up to its first suspension: with [onInitialise] it calls
    it and waits; without, it runs to its end at once. *)
Definition initialize (options : UseViewModelOptions) (viewModel : ViewModel)
    (h : Hooks) : Hooks :=
  match onInitialise options with
  | Some callback =>
      {| isMountedRef := isMountedRef h; isInitialisedState := isInitialisedState h;
         forceUpdateState := forceUpdateState h; viewModelRef := viewModelRef h;
         effect := effect h; awaiting := S (awaiting h);
         called := CalledOnInitialise callback viewModel :: called h |}
  | None => initialize_ends h
  end.

(** The effect: [isMountedRef.current = true; initialize();].  It closes
    over the [viewModel] object, which is the one [viewModelRef] holds. *)
Definition run_effect (h : Hooks) : Hooks :=
  match effect h, viewModelRef h with
  | Some options, Some viewModel =>
      initialize options viewModel
        {| isMountedRef := true; isInitialisedState := isInitialisedState h;
           forceUpdateState := forceUpdateState h; viewModelRef := viewModelRef h;
           effect := effect h; awaiting := awaiting h; called := called h |}
  | _, _ => h
  end.

(** The cleanup the effect returns:
    [isMountedRef.current = false; if (onDispose) onDispose(viewModel);] *)
Definition run_cleanup (h : Hooks) : Hooks :=
  match effect h, viewModelRef h with
  | Some options, Some viewModel =>
      {| isMountedRef := false; isInitialisedState := isInitialisedState h;
         forceUpdateState := forceUpdateState h; viewModelRef := viewModelRef h;
         effect := effect h; awaiting := awaiting h;
         called := match onDispose options with
                   | Some callback => CalledOnDispose callback viewModel :: called h
                   | None => called h
                   end |}
  | _, _ => h
  end.

(** The promise a suspended [initialize()] awaits settles: fulfilled, the
    function runs to its end; rejected, it ends there. *)
Definition settle (fulfilled : bool) (h : Hooks) : Hooks :=
  match awaiting h with
  | O => h
  | S n =>
      let h1 :=
        {| isMountedRef := isMountedRef h; isInitialisedState := isInitialisedState h;
           forceUpdateState := forceUpdateState h; viewModelRef := viewModelRef h;
           effect := effect h; awaiting := n; called := called h |} in
      if fulfilled then initialize_ends h1 else h1
  end.

(** [rebuild()]: [forceUpdate()], the reducer [x => x + 1]. *)
Definition rebuild (h : Hooks) : Hooks :=
  {| isMountedRef := isMountedRef h; isInitialisedState := isInitialisedState h;
     forceUpdateState := forceUpdateState h + 1; viewModelRef := viewModelRef h;
     effect := effect h; awaiting := awaiting h; called := called h |}.

(** The caller's own code writes to the ViewModel object. *)
Definition mutate (f : Value -> Value) (h : Hooks) : Hooks :=
  {| isMountedRef := isMountedRef h; isInitialisedState := isInitialisedState h;
     forceUpdateState := forceUpdateState h;
     viewModelRef :=
       match viewModelRef h with
       | Some vm => Some {| arguments := arguments vm; isInitialised := isInitialised vm;
                            isMounted := isMounted vm; members := f (members vm) |}
       | None => None
       end;
     effect := effect h; awaiting := awaiting h; called := called h |}.

(** ** What happens to a component *)

(** React and the caller decide what happens and when; the hook decides
    what each happening does. *)
Inductive Happening : Type :=
  | Renders (options : UseViewModelOptions)
  | RunsEffect
  | RunsCleanup
  | Settles (fulfilled : bool)
  | Rebuilds
  | Mutates (f : Value -> Value).

Definition happen (ev : Happening) (h : Hooks) : Hooks :=
  match ev with
  | Renders options => snd (useViewModel options h)
  | RunsEffect => run_effect h
  | RunsCleanup => run_cleanup h
  | Settles fulfilled => settle fulfilled h
  | Rebuilds => rebuild h
  | Mutates f => mutate f h
  end.

Definition happen_all (evs : list Happening) (h : Hooks) : Hooks :=
  fold_left (fun h ev => happen ev h) evs h.

(** The options of the first render in a list of happenings. *)
Fixpoint first_render (evs : list Happening) : option UseViewModelOptions :=
  match evs with
  | [] => None
  | Renders options :: _ => Some options
  | _ :: evs' => first_render evs'
  end.

(** The arguments [create] has been called with, oldest first. *)
Fixpoint created_with (log : list Called) : list Value :=
  match log with
  | [] => []
  | CalledCreate a :: log' => created_with log' ++ [a]
  | _ :: log' => created_with log'
  end.

(** The callbacks the hook has called (not [create]). *)
Fixpoint callbacks (log : list Called) : list (bool * nat) :=
  match log with
  | [] => []
  | CalledCreate _ :: log' => callbacks log'
  | CalledOnInitialise c _ :: log' => (true, c) :: callbacks log'
  | CalledOnDispose c _ :: log' => (false, c) :: callbacks log'
  end.

(** The ViewModels the hook has passed to the callbacks. *)
Fixpoint passed (log : list Called) : list ViewModel :=
  match log with
  | [] => []
  | CalledCreate _ :: log' => passed log'
  | CalledOnInitialise _ vm :: log' => vm :: passed log'
  | CalledOnDispose _ vm :: log' => vm :: passed log'
  end.

(** React renders a component only from its creation to its unmounting:
    no render falls between a cleanup and the next run of the effect.
    [mounted] says on which side of that the list starts. *)
Fixpoint renders_while_mounted (mounted : bool) (evs : list Happening) : bool :=
  match evs with
  | [] => true
  | Renders _ :: evs' => mounted && renders_while_mounted mounted evs'
  | RunsEffect :: evs' => renders_while_mounted true evs'
  | RunsCleanup :: evs' => renders_while_mounted false evs'
  | _ :: evs' => renders_while_mounted mounted evs'
  end.

(** Whether a happening is a fulfilled promise, or the running of the effect. *)
Definition is_fulfilment (ev : Happening) : bool :=
  match ev with Settles true => true | _ => false end.
Definition is_effect (ev : Happening) : bool :=
  match ev with RunsEffect => true | _ => false end.

(** Every callback in the log is the one [o] carries. *)
Definition callbacks_of (o : UseViewModelOptions) (log : list Called) : Prop :=
  forall b c, In (b, c) (callbacks log) ->
              (if b : bool then onInitialise o else onDispose o) = Some c.

(** The invariant behind the property of [isMounted]. *)
Definition mounted_flags (mounted : bool) (h : Hooks) : Prop :=
  (mounted = true -> isMountedRef h = true) /\
  (effect h = None \/ viewModelRef h = None -> isMountedRef h = true) /\
  (forall vm, viewModelRef h = Some vm -> isMounted vm = true) /\
  (forall vm, In vm (passed (called h)) -> isMounted vm = true).

(** Where a list of happenings leaves the component: mounted or not. *)
Fixpoint mounted_after (mounted : bool) (evs : list Happening) : bool :=
  match evs with
  | [] => mounted
  | RunsEffect :: evs' => mounted_after true evs'
  | RunsCleanup :: evs' => mounted_after false evs'
  | _ :: evs' => mounted_after mounted evs'
  end.

(** ** Options of the concrete runs *)

(** [create: (args) => ({ arguments: args, isInitialised: false,
    isMounted: true, count: 0 })], with both callbacks. *)
Definition counter_options : UseViewModelOptions :=
  {| create := fun a => {| arguments := a; isInitialised := false;
                           isMounted := true; members := VNum 0 |};
     args := VStr "team";
     onInitialise := Some 1;
     onDispose := Some 2 |}.

(** The same without callbacks. *)
Definition plain_options : UseViewModelOptions :=
  {| create := create counter_options; args := VUndefined;
     onInitialise := None; onDispose := None |}.

(** A component is rendered, mounted, and unmounted while its
    [onInitialise] promise is still pending; the promise is then fulfilled. *)
Definition unmounted_early : list Happening :=
  [ Renders counter_options; RunsEffect; RunsCleanup ].

(** ** What the hook leaves to the caller *)

(** The happenings that follow the first render. *)
Fixpoint after_first_render (evs : list Happening) : list Happening :=
  match evs with
  | [] => []
  | Renders _ :: evs' => evs'
  | _ :: evs' => after_first_render evs'
  end.



(** ** [useIsMounted] *)

(** What React keeps for a component that calls [useIsMounted()]: the ref,
    and whether the effect of the first render is in place. *)
Record IsMountedHooks : Type := mkIsMountedHooks {
  isMountedRef_current : bool;
  effect_in_place : bool;
}.

(** Before the first render: [useRef(true)]. *)
Definition first_isMounted : IsMountedHooks :=
  {| isMountedRef_current := true; effect_in_place := false |}.

(** One call of [useIsMounted()] during a render.  It returns the callback
    [() => isMountedRef.current], which reads the ref when it is called;
    [useCallback(.., [])] makes it the same function on every render. *)
Definition useIsMounted (h : IsMountedHooks)
    : (IsMountedHooks -> bool) * IsMountedHooks :=
  (isMountedRef_current,
   {| isMountedRef_current := isMountedRef_current h; effect_in_place := true |}).

(** The effect, [isMountedRef.current = true], and the cleanup it returns,
    [isMountedRef.current = false]. *)
Definition isMounted_effect (h : IsMountedHooks) : IsMountedHooks :=
  if effect_in_place h
  then {| isMountedRef_current := true; effect_in_place := true |}
  else h.

Definition isMounted_cleanup (h : IsMountedHooks) : IsMountedHooks :=
  if effect_in_place h
  then {| isMountedRef_current := false; effect_in_place := true |}
  else h.

(** The same happenings in a component that calls [useIsMounted()]. *)
Definition isMounted_happen (ev : Happening) (h : IsMountedHooks) : IsMountedHooks :=
  match ev with
  | Renders _ => snd (useIsMounted h)
  | RunsEffect => isMounted_effect h
  | RunsCleanup => isMounted_cleanup h
  | _ => h
  end.

Definition isMounted_happen_all (evs : list Happening) (h : IsMountedHooks)
    : IsMountedHooks :=
  fold_left (fun h ev => isMounted_happen ev h) evs h.


(** ** Hook states *)

(** React keeps the hooks of a component from one render to the next, and
    at times starts afresh: on a StrictMode mount it calls the component
    twice and keeps the hooks of the second call only, and a remount starts
    from fresh hooks as well.  Over its life a component is thus rendered
    in a list of runs, each on a hook state of its own that starts as
    [first_hooks].  [Hooks] and [happen_all] describe one such run. *)
Definition created_in (runs : list (list Happening)) : list Value :=
  flat_map (fun evs => created_with (called (happen_all evs first_hooks))) runs.

(** The options of the first render of each run that has one. *)
Fixpoint first_renders (runs : list (list Happening))
    : list UseViewModelOptions :=
  match runs with
  | [] => []
  | evs :: runs' =>
      match first_render evs with
      | Some o => o :: first_renders runs'
      | None => first_renders runs'
      end
  end.

(** A StrictMode mount: the hooks of the first call are dropped; on those
    of the second the effect is run, cleaned up and run again. *)
Definition strict_mode_mount : list (list Happening) :=
  [ [Renders counter_options];
    [Renders counter_options; RunsEffect; RunsCleanup; RunsEffect; Settles true] ].

(** * Part III: properties *)

(** ** Unfolding calls *)

Ltac unfold_calls :=
  unfold perform, locate, get, registerSingleton, registerLazySingleton,
    registerFactory, isRegistered, unregister, reset, this, update, note,
    throw, new_object, increment, try_catch, mbind, M_bind, mret, M_ret in *;
  simpl in *.

(** ** The maps and [isRegistered] *)

Lemma has_true {V : Type} (m : gmap string V) (key : string) :
  has m key = true <-> is_Some (m !! key).
Proof.
  unfold has. destruct (m !! key); split; intros H; eauto.
  - discriminate.
  - destruct H; discriminate.
Qed.

Lemma has_false {V : Type} (m : gmap string V) (key : string) :
  has m key = false <-> m !! key = None.
Proof. unfold has. destruct (m !! key); split; congruence. Qed.

Lemma isRegistered_in_false (s : LocatorService) (key : string) :
  isRegistered_in s key = false <->
  singletons s !! key = None /\ lazySingletonFactories s !! key = None /\
  factories s !! key = None.
Proof.
  unfold isRegistered_in. rewrite !orb_false_iff, !has_false. tauto.
Qed.

Lemma isRegistered_in_true (s : LocatorService) (key : string) :
  isRegistered_in s key = true <->
  is_Some (singletons s !! key) \/ is_Some (lazySingletonFactories s !! key) \/
  is_Some (factories s !! key).
Proof.
  unfold isRegistered_in. rewrite !orb_true_iff, !has_true. tauto.
Qed.

(** ** A relation that holds across every step holds along every call *)

Section Along.
Variable Q : World -> World -> Prop.
Hypothesis Q_refl : forall w, Q w w.
Hypothesis Q_trans : forall a b c, Q a b -> Q b c -> Q a c.
Hypothesis Q_alloc : forall w, Q w (allocated w).
Hypothesis Q_incr : forall x w, Q w (incremented x w).
Hypothesis Q_regS : forall key v w,
  isRegistered_in (locator w) key = false ->
  Q w (with_locator (set_singleton key v) w).
Hypothesis Q_regL : forall key f w,
  isRegistered_in (locator w) key = false ->
  Q w (with_locator (set_lazySingletonFactory key f) w).
Hypothesis Q_regF : forall key f w,
  isRegistered_in (locator w) key = false ->
  Q w (with_locator (set_factory key f) w).
Hypothesis Q_unregister : forall key w w',
  unregister key w = Returns tt w' -> Q w w'.
Hypothesis Q_reset : forall w w', reset w = Returns tt w' -> Q w w'.
Hypothesis Q_got : forall key w,
  is_Some (singletons (locator w) !! key) \/ factories (locator w) !! key = None ->
  Q w (noted (Got key) w).
Hypothesis Q_construct : forall key w,
  singletons (locator w) !! key = None ->
  Q w (noted (Constructed key) (noted (Got key) w)).
Hypothesis Q_promote : forall key factory instance w w1,
  singletons (locator w) !! key = None ->
  lazySingletonFactories (locator w) !! key = Some factory ->
  Q (noted (Constructed key) (noted (Got key) w)) w1 ->
  Q w (with_locator (delete_lazySingletonFactory key)
         (with_locator (set_singleton key instance) w1)).

Lemma along_bind {A B : Type} (m : M A) (k : A -> M B) (w : World) :
  along Q w (m w) ->
  (forall a w', m w = Returns a w' -> along Q w' (k a w')) ->
  along Q w ((m ≫= k) w).
Proof.
  intros Hm Hk. unfold mbind, M_bind.
  destruct (m w) as [a w'|e w'|] eqn:E; simpl in *; auto.
  specialize (Hk a w' eq_refl).
  destruct (k a w'); simpl in *; eauto.
Qed.

Lemma isRegistered_along key w : along Q w (isRegistered key w).
Proof. unfold_calls. apply Q_refl. Qed.

Lemma registerSingleton_along key v w : along Q w (registerSingleton key v w).
Proof.
  unfold_calls. destruct (isRegistered_in (locator w) key) eqn:E; simpl; auto.
Qed.

Lemma registerLazySingleton_along key f w :
  along Q w (registerLazySingleton key f w).
Proof.
  unfold_calls. destruct (isRegistered_in (locator w) key) eqn:E; simpl; auto.
Qed.

Lemma registerFactory_along key f w : along Q w (registerFactory key f w).
Proof.
  unfold_calls. destruct (isRegistered_in (locator w) key) eqn:E; simpl; auto.
Qed.

Lemma unregister_along key w : along Q w (unregister key w).
Proof.
  destruct (unregister key w) as [[] w'|e w'|] eqn:E; simpl; eauto.
  unfold_calls. discriminate.
Qed.

Lemma reset_along w : along Q w (reset w).
Proof.
  destruct (reset w) as [[] w'|e w'|] eqn:E; simpl; eauto.
  unfold_calls. discriminate.
Qed.

Lemma get_along (call : Factory -> M Value) :
  (forall f w, along Q w (call f w)) ->
  forall key w, along Q w (get call key w).
Proof.
  intros Hcall key w. unfold get.
  unfold mbind at 1; unfold M_bind at 1; unfold note at 1.
  unfold mbind at 1; unfold M_bind at 1; unfold this at 1; simpl.
  destruct (singletons (locator w) !! key) as [v|] eqn:Es.
  { apply Q_got. left. rewrite Es. eauto. }
  destruct (lazySingletonFactories (locator w) !! key) as [f|] eqn:El.
  - unfold_calls. fold (noted (Got key) w).
    fold (noted (Constructed key) (noted (Got key) w)).
    specialize (Hcall f (noted (Constructed key) (noted (Got key) w))).
    destruct (call f _) as [v w1|e w1|]; simpl in *; eauto.
  - destruct (factories (locator w) !! key) as [f|] eqn:Ef.
    + unfold_calls. fold (noted (Got key) w).
      fold (noted (Constructed key) (noted (Got key) w)).
      specialize (Hcall f (noted (Constructed key) (noted (Got key) w))).
      destruct (call f _) as [v w1|e w1|]; simpl in *; eauto.
    + apply Q_got. right. exact Ef.
Qed.

Lemma run_along (fuel : nat) : forall f w, along Q w (run fuel f w).
Proof.
  induction fuel as [|n IH]; intros f w; [exact I|].
  destruct f; simpl.
  - apply Q_refl.
  - apply Q_refl.
  - apply along_bind; [apply Q_alloc | intros; apply IH].
  - apply along_bind; [apply Q_incr | intros; apply IH].
  - apply along_bind; [apply get_along, IH | intros; apply IH].
  - apply along_bind; [apply isRegistered_along | intros; apply IH].
  - apply along_bind; [apply registerSingleton_along | intros; apply IH].
  - apply along_bind; [apply registerLazySingleton_along | intros; apply IH].
  - apply along_bind; [apply registerFactory_along | intros; apply IH].
  - apply along_bind; [apply unregister_along | intros; apply IH].
  - apply along_bind; [apply reset_along | intros; apply IH].
  - apply along_bind; [| intros; apply IH].
    unfold try_catch. specialize (IH f w). destruct (run n f w); simpl in *; auto.
Qed.

Lemma locate_along fuel key w : along Q w (locate fuel key w).
Proof. apply get_along, run_along. Qed.

Lemma perform_along fuel c w : along Q w (perform fuel c w).
Proof.
  destruct c; cbn [perform].
  - apply registerSingleton_along.
  - apply along_bind; [apply registerLazySingleton_along | intros; apply Q_refl].
  - apply along_bind; [apply registerFactory_along | intros; apply Q_refl].
  - apply locate_along.
  - apply along_bind; [apply isRegistered_along | intros; apply Q_refl].
  - apply along_bind; [apply unregister_along | intros; apply Q_refl].
  - apply along_bind; [apply reset_along | intros; apply Q_refl].
Qed.

Lemma perform_all_along fuel cs : forall w w',
  perform_all fuel cs w = Some w' -> Q w w'.
Proof.
  induction cs as [|c cs IH]; simpl; intros w w' H.
  - injection H as <-. apply Q_refl.
  - pose proof (perform_along fuel c w) as Hc.
    destruct (perform fuel c w) as [v w1|e w1|]; simpl in *; try discriminate;
      eauto.
Qed.
End Along.

(** ** The two error messages *)

Lemma append_assoc (a b c : string) : (a ++ b) ++ c = a ++ (b ++ c).
Proof.
  induction a as [|ch a IH]; [reflexivity|].
  change (String ch ((a ++ b) ++ c) = String ch (a ++ b ++ c)).
  now rewrite IH.
Qed.

Lemma not_registered_message_key (key : string) :
  contains (dquote ++ key ++ dquote) (not_registered_message key).
Proof.
  exists "Service with key ".
  exists (" is not registered. " ++
          "Make sure to register it using registerSingleton(), registerLazySingleton(), or registerFactory() " ++
          "before attempting to access it.").
  unfold not_registered_message. now rewrite !append_assoc.
Qed.

Lemma not_registered_message_hint (key : string) :
  contains "registerSingleton()" (not_registered_message key) /\
  contains "registerLazySingleton()" (not_registered_message key) /\
  contains "registerFactory()" (not_registered_message key).
Proof.
  unfold not_registered_message. repeat split.
  - exists ("Service with key " ++ dquote ++ key ++ dquote ++
            " is not registered. Make sure to register it using ").
    exists (", registerLazySingleton(), or registerFactory() " ++
            "before attempting to access it.").
    now rewrite !append_assoc.
  - exists ("Service with key " ++ dquote ++ key ++ dquote ++
            " is not registered. Make sure to register it using registerSingleton(), ").
    exists (", or registerFactory() " ++ "before attempting to access it.").
    now rewrite !append_assoc.
  - exists ("Service with key " ++ dquote ++ key ++ dquote ++
            " is not registered. Make sure to register it using registerSingleton(), registerLazySingleton(), or ").
    exists (" before attempting to access it.").
    now rewrite !append_assoc.
Qed.

Lemma already_registered_message_key (key : string) :
  contains (dquote ++ key ++ dquote) (already_registered_message key).
Proof.
  exists "Service with key ", " is already registered".
  unfold already_registered_message. now rewrite !append_assoc.
Qed.

(** ** The four ways [get] can go *)

Lemma get_singleton call key v w :
  singletons (locator w) !! key = Some v ->
  get call key w = Returns v (noted (Got key) w).
Proof. intros H. unfold_calls. now rewrite H. Qed.

Lemma get_lazy call key f w :
  singletons (locator w) !! key = None ->
  lazySingletonFactories (locator w) !! key = Some f ->
  get call key w =
    match call f (constructing key w) with
    | Returns v w' => Returns v (promoted key v w')
    | Throws e w' => Throws e w'
    | OutOfFuel => OutOfFuel
    end.
Proof.
  intros Hs Hl. unfold_calls. rewrite Hs, Hl.
  unfold constructing, noted. simpl.
  destruct (call f _); reflexivity.
Qed.

Lemma get_factory call key f w :
  singletons (locator w) !! key = None ->
  lazySingletonFactories (locator w) !! key = None ->
  factories (locator w) !! key = Some f ->
  get call key w = call f (constructing key w).
Proof.
  intros Hs Hl Hf. unfold_calls. rewrite Hs, Hl, Hf.
  unfold constructing, noted. simpl.
  destruct (call f _); reflexivity.
Qed.

Lemma get_missing call key w :
  isRegistered_in (locator w) key = false ->
  get call key w = Throws (NotRegisteredError key) (noted (Got key) w).
Proof.
  intros H. apply isRegistered_in_false in H as (Hs & Hl & Hf).
  unfold_calls. now rewrite Hs, Hl, Hf.
Qed.

Lemma locate_singleton fuel key v w :
  singletons (locator w) !! key = Some v ->
  locate fuel key w = Returns v (noted (Got key) w).
Proof. apply get_singleton. Qed.

Lemma locate_lazy fuel key f w :
  singletons (locator w) !! key = None ->
  lazySingletonFactories (locator w) !! key = Some f ->
  locate fuel key w =
    match run fuel f (constructing key w) with
    | Returns v w' => Returns v (promoted key v w')
    | Throws e w' => Throws e w'
    | OutOfFuel => OutOfFuel
    end.
Proof. apply get_lazy. Qed.

Lemma locate_factory fuel key f w :
  singletons (locator w) !! key = None ->
  lazySingletonFactories (locator w) !! key = None ->
  factories (locator w) !! key = Some f ->
  locate fuel key w = run fuel f (constructing key w).
Proof. apply get_factory. Qed.

Lemma locate_missing fuel key w :
  isRegistered_in (locator w) key = false ->
  locate fuel key w = Throws (NotRegisteredError key) (noted (Got key) w).
Proof. apply get_missing. Qed.

(** C1.  [get(key)] tries the three maps in a fixed order and the first
    that holds the key decides: a singleton is returned as stored; otherwise
    a lazy singleton's constructor is called and, when it returns, its result
    is stored in [singletons], the key leaves [lazySingletonFactories], and
    the result is returned; otherwise a factory's constructor is called and
    its outcome is the outcome of [get]; otherwise [get] throws an error
    whose message quotes the key and names [registerSingleton()],
    [registerLazySingleton()] and [registerFactory()]. *)
Theorem get_resolution_order (fuel : nat) (key : string) (w : World) :
  let s := locator w in
  (forall v, singletons s !! key = Some v ->
     locate fuel key w = Returns v (noted (Got key) w)) /\
  (forall f, singletons s !! key = None ->
     lazySingletonFactories s !! key = Some f ->
     (forall v w', run fuel f (constructing key w) = Returns v w' ->
        exists w2, locate fuel key w = Returns v w2 /\
          singletons (locator w2) = <[key := v]> (singletons (locator w')) /\
          lazySingletonFactories (locator w2) =
            delete key (lazySingletonFactories (locator w')) /\
          factories (locator w2) = factories (locator w') /\
          trace w2 = trace w') /\
     (forall e w', run fuel f (constructing key w) = Throws e w' ->
        locate fuel key w = Throws e w')) /\
  (forall f, singletons s !! key = None ->
     lazySingletonFactories s !! key = None ->
     factories s !! key = Some f ->
     locate fuel key w = run fuel f (constructing key w)) /\
  (singletons s !! key = None ->
   lazySingletonFactories s !! key = None ->
   factories s !! key = None ->
   locate fuel key w = Throws (NotRegisteredError key) (noted (Got key) w) /\
   NotRegisteredError key = Error (not_registered_message key) /\
   contains (dquote ++ key ++ dquote) (not_registered_message key) /\
   contains "registerSingleton()" (not_registered_message key) /\
   contains "registerLazySingleton()" (not_registered_message key) /\
   contains "registerFactory()" (not_registered_message key)).
Proof.
  cbv zeta. split; [|split; [|split]].
  - intros v Hs. now apply locate_singleton.
  - intros f Hs Hl. split.
    + intros v w' Hrun. exists (promoted key v w').
      rewrite (locate_lazy fuel key f w Hs Hl), Hrun. repeat split.
    + intros e w' Hrun. now rewrite (locate_lazy fuel key f w Hs Hl), Hrun.
  - intros f Hs Hl Hf. now apply locate_factory.
  - intros Hs Hl Hf. split.
    + apply locate_missing. now apply isRegistered_in_false.
    + split; [reflexivity|]. split; [apply not_registered_message_key|].
      apply not_registered_message_hint.
Qed.

(** ** Registration on an occupied key *)

(** C3.  When the key is already held by any of the three maps, each of the
    three registration methods throws the "already registered" error (the
    spec's [DuplicateKeyError]), whose message quotes the key, and leaves the
    world exactly as it was. *)
Theorem duplicate_registration_rejected
    (key : string) (w : World) (instance : Value) (factory : Factory) :
  is_Some (singletons (locator w) !! key) \/
  is_Some (lazySingletonFactories (locator w) !! key) \/
  is_Some (factories (locator w) !! key) ->
  registerSingleton key instance w = Throws (DuplicateKeyError key) w /\
  registerLazySingleton key factory w = Throws (DuplicateKeyError key) w /\
  registerFactory key factory w = Throws (DuplicateKeyError key) w /\
  DuplicateKeyError key = Error (already_registered_message key) /\
  contains (dquote ++ key ++ dquote) (already_registered_message key).
Proof.
  intros H. apply isRegistered_in_true in H.
  unfold_calls. rewrite H. repeat split.
  apply already_registered_message_key.
Qed.

(** ** Removal *)

Lemma unregister_returns (key : string) (w : World) :
  unregister key w =
    Returns tt
      (with_locator (delete_factory key)
         (with_locator (delete_lazySingletonFactory key)
            (with_locator (delete_singleton key) (noted (Unregistered key) w)))).
Proof. reflexivity. Qed.

Lemma reset_returns (w : World) :
  reset w =
    Returns tt
      (with_locator clear_factories
         (with_locator clear_lazySingletonFactories
            (with_locator clear_singletons (noted ResetAll w)))).
Proof. reflexivity. Qed.

Lemma locator_eq (s t : LocatorService) :
  singletons s = singletons t ->
  lazySingletonFactories s = lazySingletonFactories t ->
  factories s = factories t -> s = t.
Proof. destruct s, t; simpl; intros; subst; reflexivity. Qed.

(** C7.  [unregister(key)] always returns.  Afterwards none of the three
    maps holds the key, every other key has the entries it had, a second
    [unregister(key)] changes nothing in the container, and if the key was not
    registered to begin with the container is as it was. *)
Theorem unregister_removes_idempotent (key : string) (w : World) :
  exists w', unregister key w = Returns tt w' /\
    singletons (locator w') !! key = None /\
    lazySingletonFactories (locator w') !! key = None /\
    factories (locator w') !! key = None /\
    isRegistered_in (locator w') key = false /\
    (forall other, other <> key ->
       singletons (locator w') !! other = singletons (locator w) !! other /\
       lazySingletonFactories (locator w') !! other =
         lazySingletonFactories (locator w) !! other /\
       factories (locator w') !! other = factories (locator w) !! other) /\
    heap_next w' = heap_next w /\ vars w' = vars w /\
    (exists w'', unregister key w' = Returns tt w'' /\ locator w'' = locator w') /\
    (isRegistered_in (locator w) key = false -> locator w' = locator w).
Proof.
  eexists. split; [apply unregister_returns|]. simpl.
  split; [apply lookup_delete_eq|]. split; [apply lookup_delete_eq|].
  split; [apply lookup_delete_eq|].
  split.
  { apply isRegistered_in_false; simpl. now rewrite !lookup_delete_eq. }
  split.
  { intros other Hne. now rewrite !lookup_delete_ne by congruence. }
  split; [reflexivity|]. split; [reflexivity|]. split.
  - eexists. split; [apply unregister_returns|].
    apply locator_eq; simpl; apply delete_id; apply lookup_delete_eq.
  - intros H. apply isRegistered_in_false in H as (Hs & Hl & Hf).
    apply locator_eq; simpl; now apply delete_id.
Qed.

(** C8.  [reset()] always returns and leaves the container as
    [new LocatorService()] made it: three empty maps, so that [isRegistered]
    answers [false] for every key. *)
Theorem reset_restores_initial_state (w : World) :
  exists w', reset w = Returns tt w' /\
    locator w' = new_LocatorService /\
    locator w' = locator initial_world /\
    (forall key, isRegistered key w' = Returns false w') /\
    (forall fuel key, exists w'',
       locate fuel key w' = Throws (NotRegisteredError key) w'').
Proof.
  eexists. split; [apply reset_returns|]. simpl.
  split; [reflexivity|]. split; [reflexivity|]. split.
  - intros key. reflexivity.
  - intros fuel key. eexists. apply locate_missing. reflexivity.
Qed.

(** ** The ghost trace only grows *)

Lemma grows_refl w : grows w w.
Proof. intros e. lia. Qed.

Lemma grows_trans a b c : grows a b -> grows b c -> grows a c.
Proof. intros H1 H2 e. specialize (H1 e). specialize (H2 e). lia. Qed.

Lemma grows_removals key w w' :
  grows w w' -> removals key (trace w) <= removals key (trace w').
Proof.
  intros G. unfold removals.
  pose proof (G (Unregistered key)). pose proof (G ResetAll). lia.
Qed.

Lemma grows_gets key w w' : grows w w' -> gets key (trace w) <= gets key (trace w').
Proof. intros G. apply G. Qed.

Lemma grows_constructions key w w' :
  grows w w' -> constructions key (trace w) <= constructions key (trace w').
Proof. intros G. apply G. Qed.

Ltac unfold_worlds :=
  unfold constructing, promoted, noted, with_locator, allocated, incremented in *;
  simpl in *.

Ltac trace_cases :=
  unfold removals, constructions, gets in *; unfold_worlds;
  repeat case_decide; simplify_eq; try lia.

Ltac solve_grows :=
  let e := fresh "e" in
  intros e;
  repeat match goal with H : grows _ _ |- _ => specialize (H e) end;
  unfold_worlds; repeat case_decide; lia.

Ltac open_removal :=
  match goal with
  | H : unregister _ _ = Returns _ _ |- _ =>
      rewrite unregister_returns in H; injection H as <-
  | H : reset _ = Returns _ _ |- _ =>
      rewrite reset_returns in H; injection H as <-
  end.

(** ** What calls preserve *)

Lemma run_respects Q (HQ : respected Q) fuel f w : along Q w (run fuel f w).
Proof. destruct HQ. now apply run_along. Qed.


Lemma perform_all_respects Q (HQ : respected Q) fuel cs w w' :
  perform_all fuel cs w = Some w' -> Q w w'.
Proof. destruct HQ. now apply perform_all_along. Qed.

Lemma grows_respected : respected grows.
Proof. split; intros; try open_removal; solve_grows. Qed.

Lemma constructed_within_gets_respected key :
  respected (constructed_within_gets key).
Proof.
  split; unfold constructed_within_gets; intros;
    repeat match goal with H : _ /\ _ |- _ => destruct H end;
    try open_removal; (split; [solve_grows | trace_cases]).
Qed.

Lemma singleton_kept_respected key v : respected (singleton_kept key v).
Proof.
  split; unfold singleton_kept.
  - intros w. split; [apply grows_refl | auto].
  - intros a b c [G1 P1] [G2 P2]. split; [eapply grows_trans; eauto|].
    intros Hr Hs.
    pose proof (grows_removals key _ _ G1). pose proof (grows_removals key _ _ G2).
    destruct P1 as [Hb Cb]; [lia | assumption |].
    destruct P2 as [Hc Cc]; [lia | assumption |].
    split; [assumption | lia].
  - intros w. split; [solve_grows | auto].
  - intros x w. split; [solve_grows | auto].
  - intros key' v' w Hreg. split; [solve_grows|]. intros _ Hs.
    apply isRegistered_in_false in Hreg as (Hs' & _).
    split; [|reflexivity]. unfold_worlds.
    rewrite lookup_insert_ne; [assumption | congruence].
  - intros key' f w _. split; [solve_grows | auto].
  - intros key' f w _. split; [solve_grows | auto].
  - intros key' w w' H. open_removal. split; [solve_grows|].
    intros Hr Hs. trace_cases.
    split; [|reflexivity]. rewrite lookup_delete_ne; [assumption | congruence].
  - intros w w' H. open_removal. split; [solve_grows|].
    intros Hr Hs. trace_cases.
  - intros key' w _. split; [solve_grows|]. intros _ Hs. trace_cases. auto.
  - intros key' w Hnone. split; [solve_grows|]. intros _ Hs. trace_cases. auto.
  - intros key' f inst w w1 Hnone Hl [G P]. split; [solve_grows|].
    intros Hr Hs.
    assert (key' <> key) as Hne by congruence.
    destruct P as [Hs1 Hc1]; [trace_cases | exact Hs |].
    split.
    + unfold_worlds. rewrite lookup_insert_ne; [assumption | congruence].
    + trace_cases.
Qed.

(** ** Registration on a free key *)

Lemma registerSingleton_fresh key instance w :
  isRegistered_in (locator w) key = false ->
  registerSingleton key instance w =
    Returns instance (with_locator (set_singleton key instance) w).
Proof. intros H. unfold_calls. now rewrite H. Qed.

Lemma registerLazySingleton_fresh key factory w :
  isRegistered_in (locator w) key = false ->
  registerLazySingleton key factory w =
    Returns tt (with_locator (set_lazySingletonFactory key factory) w).
Proof. intros H. unfold_calls. now rewrite H. Qed.

Lemma registerFactory_fresh key factory w :
  isRegistered_in (locator w) key = false ->
  registerFactory key factory w =
    Returns tt (with_locator (set_factory key factory) w).
Proof. intros H. unfold_calls. now rewrite H. Qed.

Lemma isRegistered_returns key w :
  isRegistered key w = Returns (isRegistered_in (locator w) key) w.
Proof. reflexivity. Qed.

Lemma afterwards_singleton_kept key v fuel steps : forall w w',
  Forall (not_completing key) steps ->
  afterwards fuel steps w = Some w' ->
  singleton_kept key v w w'.
Proof.
  pose proof (singleton_kept_respected key v) as HQ.
  induction steps as [|s steps IH]; intros w w' Hsteps H.
  - injection H as <-. apply (resp_refl _ HQ).
  - apply Forall_cons in Hsteps as [Hs Hsteps]. cbn [afterwards] in H.
    destruct (step fuel s w) as [w1|] eqn:E; [|discriminate].
    apply (resp_trans _ HQ w w1 w'); [|now apply IH].
    destruct s as [c|f|j inst]; cbn [step] in E.
    + apply (perform_all_respects _ HQ fuel [c]). cbn [perform_all].
      now rewrite E.
    + pose proof (run_respects _ HQ fuel f w) as Hr.
      destruct (run fuel f w); simpl in *; try discriminate;
        now injection E as <-.
    + injection E as <-. simpl in Hs. split; [solve_grows|].
      intros _ Hv. split; [|reflexivity]. simpl.
      now rewrite lookup_insert_ne by exact Hs.
Qed.

(** C9 (as amended).  On a free key, [registerSingleton(key, v)] returns
    [v] itself.  From then on, whatever the application calls and whatever
    the constructors that are running go on to do, [get(key)] returns [v],
    leaves the container untouched, and [isRegistered(key)] is [true], as
    long as nobody enters [unregister(key)] or [reset()] and no [get(key)]
    that was already in progress when [registerSingleton] was called comes
    to store its result.  A registration made by the application itself
    has no [get] in progress. *)
Theorem singleton_round_trip (key : string) (v : Value) (w : World) :
  isRegistered_in (locator w) key = false ->
  exists w1, registerSingleton key v w = Returns v w1 /\
    forall fuel steps w2,
      afterwards fuel steps w1 = Some w2 ->
      Forall (not_completing key) steps ->
      removals key (trace w2) = removals key (trace w1) ->
      (forall fuel', exists w3,
         locate fuel' key w2 = Returns v w3 /\ locator w3 = locator w2) /\
      isRegistered key w2 = Returns true w2.
Proof.
  intros Hfree. eexists. split; [now apply registerSingleton_fresh|].
  intros fuel steps w2 Hsteps Hnone Hrem.
  destruct (afterwards_singleton_kept key v fuel steps _ _ Hnone Hsteps)
    as [_ Hkept].
  destruct Hkept as [Hs _]; [exact Hrem | apply lookup_insert_eq |].
  split.
  - intros fuel'. eexists. split; [now apply locate_singleton | reflexivity].
  - rewrite isRegistered_returns. f_equal.
    apply isRegistered_in_true. left. eauto.
Qed.

(** C10.  No registration method inspects the key: on any key that is free,
    the empty string included, each of them returns normally and stores its
    argument under that key, after which [isRegistered] is [true],
    a singleton is returned by [get], and [unregister] frees the key again. *)
Theorem registration_accepts_any_key
    (key : string) (w : World) (instance : Value) (factory : Factory) :
  isRegistered_in (locator w) key = false ->
  (exists w1, registerSingleton key instance w = Returns instance w1 /\
     singletons (locator w1) !! key = Some instance /\
     isRegistered key w1 = Returns true w1 /\
     (forall fuel, exists w2,
        locate fuel key w1 = Returns instance w2 /\ locator w2 = locator w1) /\
     (exists w2, unregister key w1 = Returns tt w2 /\
        isRegistered key w2 = Returns false w2)) /\
  (exists w1, registerLazySingleton key factory w = Returns tt w1 /\
     lazySingletonFactories (locator w1) !! key = Some factory /\
     isRegistered key w1 = Returns true w1 /\
     (exists w2, unregister key w1 = Returns tt w2 /\
        isRegistered key w2 = Returns false w2)) /\
  (exists w1, registerFactory key factory w = Returns tt w1 /\
     factories (locator w1) !! key = Some factory /\
     isRegistered key w1 = Returns true w1 /\
     (exists w2, unregister key w1 = Returns tt w2 /\
        isRegistered key w2 = Returns false w2)).
Proof.
  intros Hfree.
  assert (forall w1, exists w2, unregister key w1 = Returns tt w2 /\
            isRegistered key w2 = Returns false w2) as Hun.
  { intros w1. eexists. split; [apply unregister_returns|].
    rewrite isRegistered_returns. f_equal.
    apply isRegistered_in_false; simpl. now rewrite !lookup_delete_eq. }
  split; [|split].
  - eexists. split; [now apply registerSingleton_fresh|].
    split; [apply lookup_insert_eq|]. split; [|split; [|apply Hun]].
    + rewrite isRegistered_returns. f_equal. apply isRegistered_in_true.
      left. simpl. rewrite lookup_insert_eq. eauto.
    + intros fuel. eexists.
      split; [apply locate_singleton, lookup_insert_eq | reflexivity].
  - eexists. split; [now apply registerLazySingleton_fresh|].
    split; [apply lookup_insert_eq|]. split; [|apply Hun].
    rewrite isRegistered_returns. f_equal. apply isRegistered_in_true.
    right; left. simpl. rewrite lookup_insert_eq. eauto.
  - eexists. split; [now apply registerFactory_fresh|].
    split; [apply lookup_insert_eq|]. split; [|apply Hun].
    rewrite isRegistered_returns. f_equal. apply isRegistered_in_true.
    right; right. simpl. rewrite lookup_insert_eq. eauto.
Qed.

Lemma lazy_kept_respected key f : respected (lazy_kept key f).
Proof.
  split; unfold lazy_kept.
  - intros w. split; [apply grows_refl | auto].
  - intros a b c [G1 P1] [G2 P2]. split; [eapply grows_trans; eauto|].
    intros Hr Hg Hl Hs.
    pose proof (grows_removals key _ _ G1). pose proof (grows_removals key _ _ G2).
    pose proof (grows_gets key _ _ G1). pose proof (grows_gets key _ _ G2).
    destruct P1 as [Hl1 Hs1]; [lia | lia | assumption | assumption |].
    apply P2; [lia | lia | assumption | assumption].
  - intros w. split; [solve_grows | auto].
  - intros x w. split; [solve_grows | auto].
  - intros key' v' w Hreg. split; [solve_grows|]. intros _ _ Hl Hs.
    apply isRegistered_in_false in Hreg as (_ & Hl' & _).
    unfold_worlds. split; [assumption|].
    rewrite lookup_insert_ne; [assumption | congruence].
  - intros key' f' w Hreg. split; [solve_grows|]. intros _ _ Hl Hs.
    apply isRegistered_in_false in Hreg as (_ & Hl' & _).
    unfold_worlds. split; [|assumption].
    rewrite lookup_insert_ne; [assumption | congruence].
  - intros key' f' w _. split; [solve_grows | auto].
  - intros key' w w' H. open_removal. split; [solve_grows|].
    intros Hr Hg Hl Hs. trace_cases.
    rewrite !lookup_delete_ne by congruence. auto.
  - intros w w' H. open_removal. split; [solve_grows|].
    intros Hr Hg Hl Hs. trace_cases.
  - intros key' w _. split; [solve_grows|]. intros _ Hg Hl Hs. trace_cases. auto.
  - intros key' w Hnone. split; [solve_grows|]. intros _ Hg Hl Hs.
    trace_cases. auto.
  - intros key' f' inst w w1 Hnone Hl' [G P]. split; [solve_grows|].
    intros Hr Hg Hl Hs.
    pose proof (grows_gets key _ _ G) as Hge.
    destruct (decide (key' = key)) as [->|Hne]; [trace_cases|].
    destruct P as [Hl1 Hs1]; [trace_cases | trace_cases | exact Hl | exact Hs |].
    unfold_worlds.
    rewrite lookup_delete_ne, lookup_insert_ne by congruence. auto.
Qed.

Lemma factory_counted_respected key f : respected (factory_counted key f).
Proof.
  split; unfold factory_counted, factory_only.
  - intros w. split; [apply grows_refl|]. intros _ H. split; [exact H | lia].
  - intros a b c [G1 P1] [G2 P2]. split; [eapply grows_trans; eauto|].
    intros Hr H.
    pose proof (grows_removals key _ _ G1). pose proof (grows_removals key _ _ G2).
    destruct P1 as [Fb Cb]; [lia | assumption |].
    destruct P2 as [Fc Cc]; [lia | assumption |].
    split; [assumption | lia].
  - intros w. split; [solve_grows|]. intros _ H. split; [exact H | trace_cases].
  - intros x w. split; [solve_grows|]. intros _ H. split; [exact H | trace_cases].
  - intros key' v' w Hreg. split; [solve_grows|]. intros _ (Hf & Hs & Hl).
    apply isRegistered_in_false in Hreg as (_ & _ & Hf').
    split; [|trace_cases].
    unfold_worlds. rewrite lookup_insert_ne by congruence. auto.
  - intros key' f' w Hreg. split; [solve_grows|]. intros _ (Hf & Hs & Hl).
    apply isRegistered_in_false in Hreg as (_ & _ & Hf').
    split; [|trace_cases].
    unfold_worlds. rewrite lookup_insert_ne by congruence. auto.
  - intros key' f' w Hreg. split; [solve_grows|]. intros _ (Hf & Hs & Hl).
    apply isRegistered_in_false in Hreg as (_ & _ & Hf').
    split; [|trace_cases].
    unfold_worlds. rewrite lookup_insert_ne by congruence. auto.
  - intros key' w w' H. open_removal. split; [solve_grows|].
    intros Hr (Hf & Hs & Hl).
    assert (key' <> key) as Hne by (intros ->; trace_cases).
    split; [|trace_cases].
    unfold_worlds. rewrite !lookup_delete_ne by congruence. auto.
  - intros w w' H. open_removal. split; [solve_grows|].
    intros Hr (Hf & Hs & Hl). trace_cases.
  - intros key' w Hstop. split; [solve_grows|]. intros _ (Hf & Hs & Hl).
    assert (key' <> key) as Hne.
    { intros ->. destruct Hstop as [[u Hu]|Hn]; congruence. }
    split; [auto | trace_cases].
  - intros key' w Hnone. split; [solve_grows|]. intros _ H.
    split; [exact H | trace_cases].
  - intros key' f' inst w w1 Hnone Hl' [G P]. split; [solve_grows|].
    intros Hr (Hf & Hs & Hl).
    assert (key' <> key) as Hne by congruence.
    destruct P as ((Hf1 & Hs1 & Hl1) & C1); [trace_cases | auto |].
    split; [|trace_cases].
    unfold_worlds.
    rewrite lookup_delete_ne, lookup_insert_ne by congruence. auto.
Qed.

Lemma heap_grows_respected : respected heap_grows.
Proof.
  split; unfold heap_grows; intros; try open_removal; unfold_worlds; lia.
Qed.

(** ** Constructors that leave the container alone *)

Lemma container_untouched_trans a b c :
  container_untouched a b -> container_untouched b c -> container_untouched a c.
Proof. intros [L1 T1] [L2 T2]. split; congruence. Qed.

Lemma container_free_run (fuel : nat) : forall f w,
  container_free f -> along container_untouched w (run fuel f w).
Proof.
  induction fuel as [|n IH]; intros f w Hf; [exact I|].
  inversion Hf; subst; simpl.
  - split; reflexivity.
  - split; reflexivity.
  - apply along_bind; [exact container_untouched_trans | split; reflexivity |].
    intros o w' _. now apply IH.
  - apply along_bind; [exact container_untouched_trans | split; reflexivity |].
    intros z w' _. now apply IH.
  - apply along_bind; [exact container_untouched_trans | | intros; now apply IH].
    unfold try_catch. specialize (IH body w H).
    destruct (run n body w); simpl in *; auto.
Qed.

(** ** Repeated [get] *)

Lemma locate_n_S fuel key n w :
  locate_n fuel key (S n) w =
    match locate fuel key w with
    | Returns v w' =>
        match locate_n fuel key n w' with
        | Returns vs w'' => Returns (v :: vs) w''
        | Throws e w'' => Throws e w''
        | OutOfFuel => OutOfFuel
        end
    | Throws e w' => Throws e w'
    | OutOfFuel => OutOfFuel
    end.
Proof. reflexivity. Qed.

(** Every [get(key)] is entered, whatever it then does. *)
Lemma locate_enters fuel key w :
  along (fun _ w' => grows (noted (Got key) w) w') w (locate fuel key w).
Proof.
  destruct (singletons (locator w) !! key) as [v|] eqn:Hs.
  { rewrite (locate_singleton _ _ _ _ Hs). simpl. apply grows_refl. }
  assert (forall f, along (fun _ w' => grows (noted (Got key) w) w') w
                      (run fuel f (constructing key w))) as Hrun.
  { intros f. pose proof (run_respects _ grows_respected fuel f (constructing key w)) as H.
    destruct (run fuel f _); simpl in *; auto; solve_grows. }
  destruct (lazySingletonFactories (locator w) !! key) as [f|] eqn:Hl.
  { rewrite (locate_lazy _ _ _ _ Hs Hl). specialize (Hrun f).
    destruct (run fuel f _); simpl in *; auto. }
  destruct (factories (locator w) !! key) as [f|] eqn:Hf.
  { rewrite (locate_factory _ _ _ _ Hs Hl Hf). apply Hrun. }
  rewrite locate_missing by now apply isRegistered_in_false.
  simpl. apply grows_refl.
Qed.

Lemma locate_n_enters fuel key n : forall w vs wn,
  locate_n fuel key n w = Returns vs wn ->
  grows w wn /\ n + gets key (trace w) <= gets key (trace wn) /\ List.length vs = n.
Proof.
  induction n as [|n IH]; intros w vs wn H.
  - injection H as <- <-. split; [apply grows_refl | simpl; split; [lia | reflexivity]].
  - rewrite locate_n_S in H. pose proof (locate_enters fuel key w) as He.
    destruct (locate fuel key w) as [v w'|e w'|]; try discriminate. simpl in He.
    destruct (locate_n fuel key n w') as [vs' w''|e w''|] eqn:En; try discriminate.
    injection H as <- <-. destruct (IH _ _ _ En) as (G & Hg & Hlen).
    pose proof (grows_gets key _ _ He) as Hge.
    split; [|split].
    + eapply grows_trans; [|exact G]. solve_grows.
    + trace_cases.
    + simpl. now rewrite Hlen.
Qed.

(** Once [singletons] holds the key, any number of [get]s return the stored
    value and change nothing but the record of having been entered. *)
Lemma locate_n_singleton fuel key v n : forall w,
  singletons (locator w) !! key = Some v ->
  exists wn, locate_n fuel key n w = Returns (replicate n v) wn /\
    locator wn = locator w /\ heap_next wn = heap_next w /\ vars wn = vars w /\
    constructions key (trace wn) = constructions key (trace w).
Proof.
  induction n as [|n IH]; intros w Hs.
  - exists w. repeat split.
  - rewrite locate_n_S, (locate_singleton _ _ _ _ Hs).
    destruct (IH (noted (Got key) w) Hs) as (wn & -> & Hloc & Hheap & Hvars & Hc).
    exists wn. repeat split; assumption.
Qed.

(** ** Lazy singletons *)

(** C4 (as amended).  For a lazy singleton registered by the application
    on a free key.  Registration runs no constructor, and neither do later
    calls as long as nobody enters [get(key)], [unregister(key)] or
    [reset()].  If the first [get(key)] then returns [v] and [get(key)] has
    been entered only that once while it ran (neither the constructor nor
    any constructor run on its behalf has asked for [key]), then the
    constructor has run exactly once; any number [n >= 1] of consecutive
    [get(key)] calls all return that same [v] with still exactly one
    constructor call; and after any further calls during which nobody
    enters [unregister(key)] or [reset()] the count is still one,
    [get(key)] still returns [v] and [isRegistered(key)] is [true]. *)
Theorem lazy_singleton_constructed_once
    (fuel : nat) (key : string) (f : Factory) (cs : list Call)
    (w w1 w1' w2 : World) (v : Value) :
  isRegistered_in (locator w) key = false ->
  registerLazySingleton key f w = Returns tt w1 ->
  perform_all fuel cs w1 = Some w1' ->
  removals key (trace w1') = removals key (trace w1) ->
  gets key (trace w1') = gets key (trace w1) ->
  locate fuel key w1' = Returns v w2 ->
  gets key (trace w2) = S (gets key (trace w1')) ->
  trace w1 = trace w /\
  constructions key (trace w1') = constructions key (trace w) /\
  constructions key (trace w2) = S (constructions key (trace w)) /\
  isRegistered key w2 = Returns true w2 /\
  (forall n, exists wn,
     locate_n fuel key (S n) w1' = Returns (replicate (S n) v) wn /\
     constructions key (trace wn) = S (constructions key (trace w)) /\
     isRegistered key wn = Returns true wn) /\
  (forall fuel' cs' w3,
     perform_all fuel' cs' w2 = Some w3 ->
     removals key (trace w3) = removals key (trace w2) ->
     constructions key (trace w3) = S (constructions key (trace w)) /\
     (forall fuel'', exists w4,
        locate fuel'' key w3 = Returns v w4 /\ locator w4 = locator w3 /\
        constructions key (trace w4) = S (constructions key (trace w))) /\
     isRegistered key w3 = Returns true w3).
Proof.
  intros Hfree Hreg Hcs Hrem0 Hget0 Hfirst Hquiet.
  rewrite registerLazySingleton_fresh in Hreg by assumption.
  injection Hreg as <-.
  apply isRegistered_in_false in Hfree as (Hs & Hl & Hf).
  set (w1 := with_locator (set_lazySingletonFactory key f) w) in *.
  destruct (perform_all_respects _ (lazy_kept_respected key f) _ _ _ _ Hcs)
    as [G0 Hwaits].
  destruct Hwaits as [Hl1 Hs1];
    [exact Hrem0 | exact Hget0 | apply lookup_insert_eq | exact Hs |].
  destruct (perform_all_respects _ (constructed_within_gets_respected key) _ _ _ _ Hcs)
    as [_ Hle0].
  pose proof (grows_constructions key _ _ G0) as Hge0.
  assert (constructions key (trace w1') = constructions key (trace w)) as Hnone.
  { change (trace w1) with (trace w) in *. lia. }
  pose proof Hfirst as Hfirst'.
  rewrite (locate_lazy _ _ _ _ Hs1 Hl1) in Hfirst.
  pose proof (run_respects _ (constructed_within_gets_respected key) fuel f
                (constructing key w1')) as Hrun.
  destruct (run fuel f (constructing key w1')) as [v' w'|e w'|]; try discriminate.
  injection Hfirst as -> <-. destruct Hrun as [G Hle].
  pose proof (grows_constructions key _ _ G) as Hge.
  assert (constructions key (trace (promoted key v w')) =
          S (constructions key (trace w))) as Hone by trace_cases.
  assert (singletons (locator (promoted key v w')) !! key = Some v) as Hkept
    by apply lookup_insert_eq.
  assert (forall w3, singletons (locator w3) !! key = Some v ->
            isRegistered key w3 = Returns true w3) as Hyes.
  { intros w3 H3. rewrite isRegistered_returns. f_equal.
    apply isRegistered_in_true. left. eauto. }
  split; [reflexivity|]. split; [exact Hnone|]. split; [exact Hone|].
  split; [now apply Hyes|].
  split.
  - intros n. rewrite locate_n_S, Hfirst'.
    destruct (locate_n_singleton fuel key v n _ Hkept)
      as (wn & -> & Hloc & _ & _ & Hc).
    exists wn. split; [reflexivity|]. split; [congruence|].
    apply Hyes. now rewrite Hloc.
  - intros fuel' cs' w3 Hcs' Hrem.
    destruct (perform_all_respects _ (singleton_kept_respected key v) _ _ _ _ Hcs')
      as [_ Hk].
    destruct Hk as [Hs3 Hc3]; [exact Hrem | exact Hkept |].
    split; [congruence|]. split; [|now apply Hyes].
    intros fuel''. eexists.
    split; [now apply locate_singleton|]. split; [reflexivity|].
    trace_cases.
Qed.


(** ** Factories *)

Lemma factory_gets fuel key f : forall n w vs wn,
  factory_only key f w ->
  locate_n fuel key n w = Returns vs wn ->
  removals key (trace wn) = removals key (trace w) ->
  factory_only key f wn /\
  constructions key (trace wn) + gets key (trace w) =
    gets key (trace wn) + constructions key (trace w) /\
  heap_next w <= heap_next wn /\
  (container_free f -> locator wn = locator w) /\
  (returns_new_object fuel f ->
   NoDup vs /\
   Forall (fun v => exists a, v = VObj a /\ heap_next w <= a < heap_next wn) vs).
Proof.
  induction n as [|n IH]; intros w vs wn Hfo H Hrem.
  - injection H as <- <-. split; [exact Hfo|]. split; [lia|].
    split; [lia|]. split; [reflexivity|]. intros _. split; constructor.
  - rewrite locate_n_S in H.
    destruct Hfo as (Hf & Hs & Hl).
    rewrite (locate_factory _ _ _ _ Hs Hl Hf) in H.
    pose proof (run_respects _ (factory_counted_respected key f) fuel f
                  (constructing key w)) as Hcounted.
    pose proof (run_respects _ heap_grows_respected fuel f
                  (constructing key w)) as Hheap.
    destruct (run fuel f (constructing key w)) as [v w'|e w'|] eqn:Erun;
      try discriminate.
    destruct (locate_n fuel key n w') as [vs' w''|e w''|] eqn:En;
      try discriminate.
    injection H as <- <-.
    destruct Hcounted as [G Hcounted].
    destruct (locate_n_enters _ _ _ _ _ _ En) as (G' & _ & _).
    pose proof (grows_removals key _ _ G). pose proof (grows_removals key _ _ G').
    destruct Hcounted as [Hfo' Hc'];
      [trace_cases | repeat split; assumption |].
    destruct (IH w' vs' w'' Hfo' En) as (Hfo'' & Hc & Hh & Hsame & Hnew);
      [trace_cases |].
    unfold heap_grows in Hheap.
    split; [exact Hfo''|]. split; [trace_cases|]. split; [trace_cases|].
    split.
    { intros Hfree. rewrite (Hsame Hfree).
      pose proof (container_free_run fuel f (constructing key w) Hfree) as Hu.
      rewrite Erun in Hu. now destruct Hu as [-> _]. }
    intros Hfresh. destruct (Hnew Hfresh) as [Hnd Hall].
    destruct (Hfresh _ _ _ Erun) as (a & -> & Ha).
    split.
    + apply NoDup_cons. split; [|exact Hnd].
      intros Hin. rewrite Forall_forall in Hall.
      destruct (Hall _ Hin) as (a' & Ea & Ha'). injection Ea as ->.
      trace_cases.
    + apply Forall_cons. split.
      * exists a. split; [reflexivity | trace_cases].
      * eapply Forall_impl; [exact Hall|]. simpl.
        intros x (a' & -> & Ha'). exists a'. split; [reflexivity | trace_cases].
Qed.

(** C6 (as amended).  For a factory registered by the application on a free
    key.  Registration runs no constructor.  Whenever the key is held by
    [factories] alone, [get(key)] is exactly one call of the constructor:
    it returns what that call returns, throws what it throws, and leaves
    the world as that call left it.  After any calls during which nobody
    has entered [unregister(key)] or [reset()], the key is still held by
    [factories] alone with the same constructor, and the constructor has
    been called as often as [get(key)] has been entered, by the application
    or by a constructor.  Hence [n] consecutive [get(key)] calls that all
    return give [n] values and, when no constructor has entered [get(key)]
    meanwhile, exactly [n] constructor calls; the registry is unchanged
    when the constructor makes no call on it; and the values are pairwise
    distinct when the constructor returns an object it has just
    allocated. *)
Theorem factory_constructs_on_every_get
    (fuel : nat) (key : string) (f : Factory) (w w1 : World) :
  isRegistered_in (locator w) key = false ->
  registerFactory key f w = Returns tt w1 ->
  trace w1 = trace w /\
  factory_only key f w1 /\
  (forall fuel' w2, factory_only key f w2 ->
     locate fuel' key w2 = run fuel' f (constructing key w2)) /\
  (forall cs w2,
     perform_all fuel cs w1 = Some w2 ->
     removals key (trace w2) = removals key (trace w1) ->
     factory_only key f w2 /\
     constructions key (trace w2) + gets key (trace w) =
       gets key (trace w2) + constructions key (trace w)) /\
  (forall n vs wn,
     locate_n fuel key n w1 = Returns vs wn ->
     removals key (trace wn) = removals key (trace w1) ->
     List.length vs = n /\
     factory_only key f wn /\
     constructions key (trace wn) + gets key (trace w) =
       gets key (trace wn) + constructions key (trace w) /\
     (gets key (trace wn) = n + gets key (trace w) ->
      constructions key (trace wn) = n + constructions key (trace w)) /\
     (container_free f -> locator wn = locator w1) /\
     (returns_new_object fuel f -> NoDup vs)).
Proof.
  intros Hfree Hreg.
  rewrite registerFactory_fresh in Hreg by assumption. injection Hreg as <-.
  apply isRegistered_in_false in Hfree as (Hs & Hl & Hf).
  assert (factory_only key f (with_locator (set_factory key f) w)) as Hfo.
  { repeat split; [apply lookup_insert_eq | exact Hs | exact Hl]. }
  split; [reflexivity|]. split; [exact Hfo|]. split; [|split].
  - intros fuel' w2 (Hf2 & Hs2 & Hl2). now apply locate_factory.
  - intros cs w2 Hcs Hrem.
    destruct (perform_all_respects _ (factory_counted_respected key f) _ _ _ _ Hcs)
      as [_ Hcounted].
    now apply Hcounted.
  - intros n vs wn Hn Hrem.
    destruct (factory_gets fuel key f n _ _ _ Hfo Hn Hrem)
      as (Hfo' & Hc & _ & Hsame & Hnew).
    destruct (locate_n_enters _ _ _ _ _ _ Hn) as (_ & _ & Hlen).
    split; [exact Hlen|]. split; [exact Hfo'|]. split; [exact Hc|].
    split; [|split; [exact Hsame|]].
    + intros Hget. unfold_worlds. lia.
    + intros Hfresh. now apply Hnew.
Qed.

(** ** Disjointness of the three maps *)

Lemma settled_locator w w' : locator w' = locator w -> settled w -> settled w'.
Proof. unfold settled. now intros ->. Qed.

Lemma settled_step_locator w w' :
  locator w' = locator w -> settled w -> settled_step w w'.
Proof.
  intros E H. split; [now apply (settled_locator w)|]. now rewrite E.
Qed.

Lemma settled_step_trans a b c : settled_step a b -> settled_step b c -> settled_step a c.
Proof. intros [_ P1] [T P2]. split; [exact T | auto]. Qed.

Lemma holders_other (s t : LocatorService) (key : string) :
  singletons t !! key = singletons s !! key ->
  lazySingletonFactories t !! key = lazySingletonFactories s !! key ->
  factories t !! key = factories s !! key ->
  holders t key = holders s key.
Proof. unfold holders, has. now intros -> -> ->. Qed.

Lemma holders_free s key :
  isRegistered_in s key = false -> holders s key = 0.
Proof.
  intros H. apply isRegistered_in_false in H as (Hs & Hl & Hf).
  unfold holders, has. now rewrite Hs, Hl, Hf.
Qed.

Lemma holders_counts s key a b c :
  has (singletons s) key = a -> has (lazySingletonFactories s) key = b ->
  has (factories s) key = c ->
  holders s key = Nat.b2n a + Nat.b2n b + Nat.b2n c.
Proof. unfold holders. now intros -> -> ->. Qed.

Lemma settled_set_singleton key v w :
  isRegistered_in (locator w) key = false -> settled w ->
  settled_step w (with_locator (set_singleton key v) w).
Proof.
  intros Hfree [Hd Hst]. split; [split; [|exact Hst]|].
  - intros key'. destruct (decide (key' = key)) as [->|Hne].
    + apply isRegistered_in_false in Hfree as (Hs & Hl & Hf).
      rewrite (holders_counts _ _ true false false); simpl; [lia | | |].
      * apply has_true. rewrite lookup_insert_eq. eauto.
      * now apply has_false.
      * now apply has_false.
    + rewrite (holders_other (locator w)); simpl; auto.
      now rewrite lookup_insert_ne by congruence.
  - intros key' [[u Hu]|Hl]; [left|right; exact Hl]. simpl.
    destruct (decide (key' = key)) as [->|Hne].
    + rewrite lookup_insert_eq. eauto.
    + rewrite lookup_insert_ne by congruence. eauto.
Qed.

Lemma settled_set_lazySingletonFactory key f w :
  isRegistered_in (locator w) key = false -> never_removes f -> settled w ->
  settled_step w (with_locator (set_lazySingletonFactory key f) w).
Proof.
  intros Hfree Hf0 [Hd [Hl0 Hfa0]]. split; [split|].
  - intros key'. destruct (decide (key' = key)) as [->|Hne].
    + apply isRegistered_in_false in Hfree as (Hs & Hl & Hf).
      rewrite (holders_counts _ _ false true false); simpl; [lia | | |].
      * now apply has_false.
      * apply has_true. rewrite lookup_insert_eq. eauto.
      * now apply has_false.
    + rewrite (holders_other (locator w)); simpl; auto.
      now rewrite lookup_insert_ne by congruence.
  - split; [|exact Hfa0]. simpl. intros key' f' H.
    apply lookup_insert_Some in H as [[_ <-]|[_ H]]; eauto.
  - intros key' [Hs|[g Hg]]; [left; exact Hs|right]. simpl.
    destruct (decide (key' = key)) as [->|Hne].
    + rewrite lookup_insert_eq. eauto.
    + rewrite lookup_insert_ne by congruence. eauto.
Qed.

Lemma settled_set_factory key f w :
  isRegistered_in (locator w) key = false -> never_removes f -> settled w ->
  settled_step w (with_locator (set_factory key f) w).
Proof.
  intros Hfree Hf0 [Hd [Hl0 Hfa0]]. split; [split|].
  - intros key'. destruct (decide (key' = key)) as [->|Hne].
    + apply isRegistered_in_false in Hfree as (Hs & Hl & Hf).
      rewrite (holders_counts _ _ false false true); simpl; [lia | | |].
      * now apply has_false.
      * now apply has_false.
      * apply has_true. rewrite lookup_insert_eq. eauto.
    + rewrite (holders_other (locator w)); simpl; auto.
      now rewrite lookup_insert_ne by congruence.
  - split; [exact Hl0|]. simpl. intros key' f' H.
    apply lookup_insert_Some in H as [[_ <-]|[_ H]]; eauto.
  - intros key' H. exact H.
Qed.

Lemma settled_unregistered key w w' :
  unregister key w = Returns tt w' -> settled w -> settled w'.
Proof.
  intros H [Hd [Hl0 Hfa0]]. open_removal. split.
  - intros key'. destruct (decide (key' = key)) as [->|Hne].
    + rewrite (holders_counts _ _ false false false); simpl; [lia | | |];
        apply has_false, lookup_delete_eq.
    + rewrite (holders_other (locator w)); simpl; auto;
        now rewrite lookup_delete_ne by congruence.
  - split; simpl; intros key' f' H; apply lookup_delete_Some in H as [_ H]; eauto.
Qed.

Lemma settled_reset w w' : reset w = Returns tt w' -> settled w'.
Proof.
  intros H. open_removal. split.
  - intros key'. rewrite holders_free; [lia | reflexivity].
  - split; simpl; intros key' f' H; now rewrite lookup_empty in H.
Qed.

(** A key held by [singletons] or [lazySingletonFactories] is not a factory
    key, the maps being disjoint. *)
Lemma promotable_not_factory key w :
  settled w -> promotable (locator w) key -> factories (locator w) !! key = None.
Proof.
  intros [Hd _] Hp. specialize (Hd key). unfold holders, has in Hd.
  destruct (factories (locator w) !! key); [|reflexivity].
  destruct Hp as [[u Hu]|[g Hg]].
  - rewrite Hu in Hd. simpl in Hd.
    destruct (lazySingletonFactories (locator w) !! key); simpl in Hd; lia.
  - rewrite Hg in Hd.
    destruct (singletons (locator w) !! key); simpl in Hd; lia.
Qed.

(** The promotion at the end of [get]: the constructor has not removed the
    key, so it is not a factory key by now, and ends in [singletons] alone. *)
Lemma settled_promoted key f v w w1 :
  lazySingletonFactories (locator w) !! key = Some f ->
  settled_step (constructing key w) w1 -> settled_step w (promoted key v w1).
Proof.
  intros Hl [T P].
  assert (factories (locator w1) !! key = None) as Hnone.
  { apply promotable_not_factory; [exact T|]. apply P. right. simpl. eauto. }
  destruct T as [Hd [Hl0 Hfa0]]. split; [split|].
  - intros key'. destruct (decide (key' = key)) as [->|Hne].
    + rewrite (holders_counts _ _ true false false); simpl; [lia | | |].
      * apply has_true. rewrite lookup_insert_eq. eauto.
      * apply has_false, lookup_delete_eq.
      * now apply has_false.
    + rewrite (holders_other (locator w1)); simpl; auto.
      * now rewrite lookup_insert_ne by congruence.
      * now rewrite lookup_delete_ne by congruence.
  - split; [|exact Hfa0]. simpl. intros key' f' H.
    apply lookup_delete_Some in H as [_ H]. eauto.
  - intros key' Hp. destruct (decide (key' = key)) as [->|Hne].
    + left. simpl. rewrite lookup_insert_eq. eauto.
    + destruct (P key' Hp) as [[u Hu]|[g Hg]]; [left|right]; simpl.
      * rewrite lookup_insert_ne by congruence. eauto.
      * rewrite lookup_delete_ne by congruence. eauto.
Qed.

Lemma registerSingleton_settled key v w :
  settled w -> along settled_step w (registerSingleton key v w).
Proof.
  intros Hw. unfold_calls.
  destruct (isRegistered_in (locator w) key) eqn:E; simpl.
  - now apply settled_step_locator.
  - now apply settled_set_singleton.
Qed.

Lemma registerLazySingleton_settled key f w :
  never_removes f -> settled w ->
  along settled_step w (registerLazySingleton key f w).
Proof.
  intros Hf Hw. unfold_calls.
  destruct (isRegistered_in (locator w) key) eqn:E; simpl.
  - now apply settled_step_locator.
  - now apply settled_set_lazySingletonFactory.
Qed.

Lemma registerFactory_settled key f w :
  never_removes f -> settled w ->
  along settled_step w (registerFactory key f w).
Proof.
  intros Hf Hw. unfold_calls.
  destruct (isRegistered_in (locator w) key) eqn:E; simpl.
  - now apply settled_step_locator.
  - now apply settled_set_factory.
Qed.

Lemma get_settled (call : Factory -> M Value) :
  (forall f w, never_removes f -> settled w -> along settled_step w (call f w)) ->
  forall key w, settled w -> along settled_step w (get call key w).
Proof.
  intros Hcall key w Hw.
  assert (settled_step w (noted (Got key) w)) as Hgot
    by now apply settled_step_locator.
  assert (settled (constructing key w)) as Hc by now apply (settled_locator w).
  destruct (singletons (locator w) !! key) as [v|] eqn:Hs.
  { now rewrite (get_singleton _ _ _ _ Hs). }
  destruct (lazySingletonFactories (locator w) !! key) as [f|] eqn:Hl.
  { rewrite (get_lazy _ _ _ _ Hs Hl).
    assert (never_removes f) as Hf by (destruct Hw as [_ [H _]]; eauto).
    specialize (Hcall f (constructing key w) Hf Hc).
    destruct (call f _) as [v w1|e w1|]; simpl in *; auto.
    eapply settled_promoted; eauto. }
  destruct (factories (locator w) !! key) as [f|] eqn:Hf.
  { rewrite (get_factory _ _ _ _ Hs Hl Hf).
    assert (never_removes f) as Hf' by (destruct Hw as [_ [_ H]]; eauto).
    exact (Hcall f (constructing key w) Hf' Hc). }
  now rewrite get_missing by now apply isRegistered_in_false.
Qed.

Lemma run_settled (fuel : nat) : forall f w,
  never_removes f -> settled w -> along settled_step w (run fuel f w).
Proof.
  induction fuel as [|n IH]; intros f w Hf Hw; [exact I|].
  assert (settled_step w w) as Hrefl by now apply settled_step_locator.
  assert (forall A (m : M A) (k : A -> Factory),
            along settled_step w (m w) ->
            (forall a, never_removes (k a)) ->
            along settled_step w ((m ≫= fun a => run n (k a)) w)) as Hbind.
  { intros A m k Hm Hk. apply along_bind; [exact settled_step_trans | exact Hm |].
    intros a w' E. rewrite E in Hm. destruct Hm as [T _]. now apply IH. }
  inversion Hf; subst; simpl.
  - exact Hrefl.
  - exact Hrefl.
  - apply Hbind; [|assumption]. now apply settled_step_locator.
  - apply Hbind; [|assumption]. now apply settled_step_locator.
  - apply Hbind; [|assumption]. apply get_settled; [exact IH | exact Hw].
  - apply Hbind; [|assumption]. exact Hrefl.
  - apply (Hbind _ _ (fun _ => k)); [|auto]. now apply registerSingleton_settled.
  - apply (Hbind _ _ (fun _ => k)); [|auto]. now apply registerLazySingleton_settled.
  - apply (Hbind _ _ (fun _ => k)); [|auto]. now apply registerFactory_settled.
  - apply Hbind; [|assumption].
    unfold try_catch. specialize (IH body w H Hw).
    destruct (run n body w); simpl in *; auto.
Qed.

Lemma perform_settled fuel c w w' :
  registers_constructors_that_never_remove c -> settled w ->
  world_after (perform fuel c w) = Some w' -> settled w'.
Proof.
  intros Hc Hw H. destruct c; cbn [perform] in H.
  - pose proof (registerSingleton_settled key instance w Hw) as Hr.
    destruct (registerSingleton key instance w); simpl in *;
      try discriminate; injection H as <-; apply Hr.
  - pose proof (registerLazySingleton_settled key factory w Hc Hw) as Hr.
    unfold mbind, M_bind, mret, M_ret in H.
    destruct (registerLazySingleton key factory w); simpl in *;
      try discriminate; injection H as <-; apply Hr.
  - pose proof (registerFactory_settled key factory w Hc Hw) as Hr.
    unfold mbind, M_bind, mret, M_ret in H.
    destruct (registerFactory key factory w); simpl in *;
      try discriminate; injection H as <-; apply Hr.
  - pose proof (get_settled (run fuel) (fun f w => run_settled fuel f w) key w Hw)
      as Hg.
    unfold locate in H. destruct (get (run fuel) key w); simpl in *;
      try discriminate; injection H as <-; apply Hg.
  - unfold_calls. injection H as <-. exact Hw.
  - eapply (settled_unregistered key w); [|exact Hw].
    unfold_calls. now injection H as <-.
  - eapply (settled_reset w). unfold_calls. now injection H as <-.
Qed.

(** C2 (as amended).  In every state reachable from a fresh container by
    calls whose constructors never call [unregister] or [reset] while they
    run (they may call [get], [isRegistered] and the three registration
    methods, and so may the constructors they register; the application
    itself may call everything), every key is held by at most one of the
    three maps. *)
Theorem maps_stay_disjoint (w : World) :
  reachable_by registers_constructors_that_never_remove w ->
  forall key, holders (locator w) key <= 1.
Proof.
  intros Hreach.
  assert (settled w) as [Hd _]; [|exact Hd].
  induction Hreach as [|fuel c w w' _ IH Hc Hstep].
  - split; [intros key; rewrite holders_free; [lia | reflexivity]|].
    split; simpl; intros key f H; now rewrite lookup_empty in H.
  - eapply perform_settled; eauto.
Qed.

Lemma perform_all_reachable allowed fuel cs : forall w w',
  reachable_by allowed w -> Forall allowed cs ->
  perform_all fuel cs w = Some w' -> reachable_by allowed w'.
Proof.
  induction cs as [|c cs IH]; simpl; intros w w' Hw Hcs H.
  - now injection H as <-.
  - apply Forall_cons in Hcs as [Hc Hcs].
    destruct (world_after (perform fuel c w)) as [w1|] eqn:E; [|discriminate].
    eapply IH; [|exact Hcs | exact H].
    eapply reachable_by_call; eauto.
Qed.

(** ** More fuel changes nothing that has ended *)

Lemma bind_more_fuel {A B : Type} (m m' : M A) (k k' : A -> M B) (w : World) :
  finished ((m ≫= k) w) ->
  (finished (m w) -> m' w = m w) ->
  (forall a w', m w = Returns a w' -> finished (k a w') -> k' a w' = k a w') ->
  (m' ≫= k') w = (m ≫= k) w.
Proof.
  unfold mbind, M_bind. intros Hfin Hm Hk.
  destruct (m w) as [a w'|e w'|] eqn:E; simpl in *; try contradiction.
  - rewrite Hm by exact I. now apply Hk.
  - now rewrite Hm by exact I.
Qed.

Lemma get_more_fuel (call call' : Factory -> M Value) :
  (forall f w, finished (call f w) -> call' f w = call f w) ->
  forall key w, finished (get call key w) -> get call' key w = get call key w.
Proof.
  intros Hcall key w.
  destruct (singletons (locator w) !! key) as [v|] eqn:Hs.
  { now rewrite !(get_singleton _ _ _ _ Hs). }
  destruct (lazySingletonFactories (locator w) !! key) as [f|] eqn:Hl.
  { rewrite !(get_lazy _ _ _ _ Hs Hl). intros Hfin.
    rewrite Hcall; [reflexivity|]. now destruct (call f _). }
  destruct (factories (locator w) !! key) as [f|] eqn:Hf.
  { rewrite !(get_factory _ _ _ _ Hs Hl Hf). apply Hcall. }
  now rewrite !get_missing by now apply isRegistered_in_false.
Qed.

(** A call that ends within some budget ends the same way within any larger
    one. *)
Lemma run_more_fuel (n : nat) : forall m f w,
  n <= m -> finished (run n f w) -> run m f w = run n f w.
Proof.
  induction n as [|n IH]; intros m f w Hle Hfin; [contradiction|].
  destruct m as [|m]; [lia|]. assert (n <= m) as Hle' by lia.
  destruct f; simpl in *; try reflexivity;
    (apply bind_more_fuel; [exact Hfin | | intros; now apply IH]);
    try reflexivity.
  - apply get_more_fuel. intros; now apply IH.
  - unfold try_catch. intros Hb.
    rewrite IH; [reflexivity | exact Hle' |].
    destruct (run n f w); simpl in *; auto.
Qed.

Lemma locate_more_fuel n m key w :
  n <= m -> finished (locate n key w) -> locate m key w = locate n key w.
Proof.
  intros Hle. apply get_more_fuel. intros f w' Hf. now apply run_more_fuel.
Qed.

(** * Part IV: concrete runs *)

Ltac by_running := vm_compute; reflexivity.

Ltac allowed_calls :=
  repeat (apply Forall_cons_2 || apply Forall_nil_2);
  simpl; try exact I; repeat (constructor; intros).

(** C2, counterexample.  A lazy constructor that, while it runs, unregisters
    its own key and registers it again as a factory: when it returns, [get]
    stores the result under the same key in [singletons], and the key is
    then held by two maps. *)
Lemma maps_overlap_after_reentrant_registration :
  reachable (after_calls 4 overlap_calls) /\
  singletons (locator (after_calls 4 overlap_calls)) !! "k" = Some (VNum 0) /\
  factories (locator (after_calls 4 overlap_calls)) !! "k" = Some (Return (VNum 1)) /\
  holders (locator (after_calls 4 overlap_calls)) "k" = 2.
Proof.
  split; [|split; [by_running | split; by_running]].
  apply (perform_all_reachable _ 4 overlap_calls initial_world).
  - constructor.
  - allowed_calls.
  - by_running.
Qed.

(** C2 at work: a lazy constructor that registers a lazy singleton and a
    factory while it runs and looks the first one up; the application then
    resolves the factory, unregisters a key and asks again. *)
Lemma maps_stay_disjoint_witness :
  reachable_by registers_constructors_that_never_remove (after_calls 6 wiring_calls) /\
  singletons (locator (after_calls 6 wiring_calls)) !! "app" = Some (VObj 0) /\
  factories (locator (after_calls 6 wiring_calls)) !! "dto" = Some usersApi_factory /\
  forall key, holders (locator (after_calls 6 wiring_calls)) key <= 1.
Proof.
  assert (reachable_by registers_constructors_that_never_remove
            (after_calls 6 wiring_calls)) as Hreach.
  { apply (perform_all_reachable _ 6 wiring_calls initial_world).
    - constructor.
    - allowed_calls.
    - by_running. }
  split; [exact Hreach|]. split; [by_running|]. split; [by_running|].
  exact (maps_stay_disjoint (after_calls 6 wiring_calls) Hreach).
Defined.

(** C3 at work: a key held as a lazy singleton refuses all three kinds. *)
Lemma duplicate_registration_rejected_witness :
  let w := with_lazy "lazy" counting_factory initial_world in
  (is_Some (singletons (locator w) !! "lazy") \/
   is_Some (lazySingletonFactories (locator w) !! "lazy") \/
   is_Some (factories (locator w) !! "lazy")) /\
  registerSingleton "lazy" (VNum 7) w = Throws (DuplicateKeyError "lazy") w /\
  registerLazySingleton "lazy" usersApi_factory w =
    Throws (DuplicateKeyError "lazy") w /\
  registerFactory "lazy" usersApi_factory w = Throws (DuplicateKeyError "lazy") w.
Proof.
  cbv zeta.
  assert (is_Some (singletons
            (locator (with_lazy "lazy" counting_factory initial_world)) !! "lazy") \/
          is_Some (lazySingletonFactories
            (locator (with_lazy "lazy" counting_factory initial_world)) !! "lazy") \/
          is_Some (factories
            (locator (with_lazy "lazy" counting_factory initial_world)) !! "lazy"))
    as H.
  { right; left. exists counting_factory. by_running. }
  split; [exact H|].
  destruct (duplicate_registration_rejected "lazy"
              (with_lazy "lazy" counting_factory initial_world)
              (VNum 7) usersApi_factory H) as (A & B & C & _).
  split; [exact A | split; [exact B | exact C]].
Defined.

(** C9, counterexample.  [registerSingleton('k', 1)] is called by the
    constructor of ['k'] itself, after it has unregistered ['k']: the key is
    free, the call returns 1, and nobody enters [unregister] or [reset()]
    afterwards.  The constructor then returns 0, and the [get('k')] that
    was running it stores 0 under ['k']: every later [get('k')] returns 0,
    not 1. *)
Lemma singleton_overwritten_by_pending_get :
  let registered := with_lazy "k" self_registering_factory initial_world in
  isRegistered_in (locator self_registering_midway) "k" = false /\
  exists w1 w2,
    registerSingleton "k" (VNum 1) self_registering_midway = Returns (VNum 1) w1 /\
    afterwards 1 [Continues (Return (VNum 0)); Completes "k" (VNum 0)] w1 = Some w2 /\
    locate 4 "k" registered = Returns (VNum 0) w2 /\
    removals "k" (trace w2) = removals "k" (trace w1) /\
    forall fuel, exists w3,
      locate fuel "k" w2 = Returns (VNum 0) w3 /\ VNum 0 <> VNum 1.
Proof.
  cbv zeta. split; [by_running|].
  eexists _, _. split; [by_running|]. split; [by_running|].
  split; [by_running|]. split; [by_running|].
  intros fuel. eexists. split; [|discriminate].
  apply locate_singleton. by_running.
Qed.

(** C9 at work: a singleton registered on a fresh container is still
    returned after the application has resolved another key, a constructor
    has gone on to register something, and a [get] of another key that was
    in progress has stored its result. *)
Lemma singleton_round_trip_witness :
  isRegistered_in (locator initial_world) "test" = false /\
  exists w1 w2,
    registerSingleton "test" (VObj 0) initial_world = Returns (VObj 0) w1 /\
    afterwards 3
      [ Calls (RegisterLazySingleton "lazy" counting_factory); Calls (Get "lazy");
        Continues (CallRegisterFactory "dto" usersApi_factory (Return VUndefined));
        Completes "other" (VNum 5) ] w1 = Some w2 /\
    (forall fuel', exists w3,
       locate fuel' "test" w2 = Returns (VObj 0) w3 /\ locator w3 = locator w2) /\
    isRegistered "test" w2 = Returns true w2.
Proof.
  split; [by_running|].
  destruct (singleton_round_trip "test" (VObj 0) initial_world)
    as (w1 & Hreg & Hlater); [by_running|].
  assert (w1 = with_locator (set_singleton "test" (VObj 0)) initial_world) as ->.
  { vm_compute in Hreg. now injection Hreg as <-. }
  eexists _, _. split; [exact Hreg|].
  split; [by_running|].
  apply (Hlater 3
           [ Calls (RegisterLazySingleton "lazy" counting_factory); Calls (Get "lazy");
             Continues (CallRegisterFactory "dto" usersApi_factory (Return VUndefined));
             Completes "other" (VNum 5) ]).
  - by_running.
  - repeat (apply Forall_cons_2 || apply Forall_nil_2); simpl;
      try exact I; discriminate.
  - by_running.
Defined.

(** C10 at work on the empty string. *)
Lemma registration_accepts_any_key_witness :
  isRegistered_in (locator initial_world) "" = false /\
  (exists w1, registerSingleton "" (VNum 1) initial_world = Returns (VNum 1) w1 /\
     singletons (locator w1) !! "" = Some (VNum 1) /\
     isRegistered "" w1 = Returns true w1 /\
     (forall fuel, exists w2,
        locate fuel "" w1 = Returns (VNum 1) w2 /\ locator w2 = locator w1) /\
     (exists w2, unregister "" w1 = Returns tt w2 /\
        isRegistered "" w2 = Returns false w2)) /\
  (exists w1, registerLazySingleton "" counting_factory initial_world = Returns tt w1 /\
     lazySingletonFactories (locator w1) !! "" = Some counting_factory /\
     isRegistered "" w1 = Returns true w1 /\
     (exists w2, unregister "" w1 = Returns tt w2 /\
        isRegistered "" w2 = Returns false w2)) /\
  (exists w1, registerFactory "" counting_factory initial_world = Returns tt w1 /\
     factories (locator w1) !! "" = Some counting_factory /\
     isRegistered "" w1 = Returns true w1 /\
     (exists w2, unregister "" w1 = Returns tt w2 /\
        isRegistered "" w2 = Returns false w2)).
Proof.
  split; [by_running|].
  apply (registration_accepts_any_key "" initial_world (VNum 1) counting_factory).
  by_running.
Defined.

(** C4, counterexample.  A lazy constructor that asks for its own key the
    first time it runs: the nested [get] finds the key still in
    [lazySingletonFactories] and calls the constructor again, so one
    [get(k)], with no [unregister] or [reset] anywhere, has run the
    constructor twice. *)
Lemma lazy_constructor_runs_twice_when_it_asks_for_itself :
  exists w1 w2 v,
    registerLazySingleton "k" self_asking_factory initial_world = Returns tt w1 /\
    constructions "k" (trace w1) = 0 /\
    locate 5 "k" w1 = Returns v w2 /\
    removals "k" (trace w2) = 0 /\
    constructions "k" (trace w2) = 2 /\
    vars w2 !! "calls" = Some 2%Z.
Proof.
  eexists _, _, _. split; [by_running|]. split; [by_running|].
  split; [by_running|]. split; [by_running|]. split; by_running.
Qed.

(** The same through a dependency: the constructor of ['k'] only looks up
    ['dep'], whose constructor asks for ['k'] the first time it runs.  One
    [get('k')] runs the constructor of ['k'] twice, although that
    constructor never asks for ['k'] itself. *)
Lemma lazy_constructor_runs_twice_through_a_dependency :
  let w := after_calls 1 indirect_calls in
  lazySingletonFactories (locator w) !! "k" = Some depending_factory /\
  lazySingletonFactories (locator w) !! "dep" = Some asking_back_factory /\
  exists v w',
    locate 8 "k" w = Returns v w' /\
    removals "k" (trace w') = 0 /\
    constructions "k" (trace w') = 2 /\
    gets "k" (trace w') = 2.
Proof.
  cbv zeta. split; [by_running|]. split; [by_running|].
  eexists _, _. split; [by_running|]. split; [by_running|]. split; by_running.
Qed.

(** C4 at work: the counting constructor of the tests, with a registration
    and a query between its registration and the first [get]; it runs once,
    whatever the number of [get]s, and [callCount] is 1. *)
Lemma lazy_singleton_constructed_once_witness :
  isRegistered_in (locator initial_world) "lazy" = false /\
  registerLazySingleton "lazy" counting_factory initial_world =
    Returns tt lazy_registered /\
  perform_all 3 [RegisterFactory "factory" counting_factory; IsRegistered "lazy"]
    lazy_registered = Some lazy_waiting /\
  locate 3 "lazy" lazy_waiting = Returns (VObj 0) lazy_resolved /\
  gets "lazy" (trace lazy_resolved) = S (gets "lazy" (trace lazy_waiting)) /\
  constructions "lazy" (trace lazy_waiting) = 0 /\
  constructions "lazy" (trace lazy_resolved) = 1 /\
  vars lazy_resolved !! "callCount" = Some 1%Z /\
  (forall n, exists wn,
     locate_n 3 "lazy" (S n) lazy_waiting = Returns (replicate (S n) (VObj 0)) wn /\
     constructions "lazy" (trace wn) = 1 /\
     isRegistered "lazy" wn = Returns true wn).
Proof.
  assert (isRegistered_in (locator initial_world) "lazy" = false) as H0
    by by_running.
  assert (registerLazySingleton "lazy" counting_factory initial_world =
            Returns tt lazy_registered) as H1 by by_running.
  assert (perform_all 3 [RegisterFactory "factory" counting_factory;
                         IsRegistered "lazy"] lazy_registered =
            Some lazy_waiting) as H2 by by_running.
  assert (locate 3 "lazy" lazy_waiting = Returns (VObj 0) lazy_resolved) as H3
    by by_running.
  assert (gets "lazy" (trace lazy_resolved) =
            S (gets "lazy" (trace lazy_waiting))) as H4 by by_running.
  destruct (lazy_singleton_constructed_once 3 "lazy" counting_factory _
              initial_world lazy_registered lazy_waiting lazy_resolved (VObj 0)
              H0 H1 H2)
    as (_ & Hnone & Hone & _ & Hn & _);
    [by_running | by_running | exact H3 | exact H4 |].
  split; [exact H0|]. split; [exact H1|]. split; [exact H2|]. split; [exact H3|].
  split; [exact H4|]. split; [exact Hnone|]. split; [exact Hone|].
  split; [by_running | exact Hn].
Defined.


(** A failed [get] that leaves its key promoted.  The constructor of ['k']
    looks up ['dep'] and throws the second time it comes to its end; the
    constructor of ['dep'] asks for ['k'] the first time it runs.  The
    nested [get('k')] succeeds and promotes ['k']; the outer one then
    throws.  The constructor of ['k'] itself has called neither
    [unregister], [reset] nor [get('k')]. *)
Lemma failed_construction_after_a_nested_get :
  let w := after_calls 1 indirect_failing_calls in
  lazySingletonFactories (locator w) !! "k" = Some twice_failing_factory /\
  singletons (locator w) !! "k" = None /\
  exists w',
    locate 8 "k" w = Throws (Error "boom") w' /\
    removals "k" (trace w') = 0 /\
    lazySingletonFactories (locator w') !! "k" = None /\
    singletons (locator w') !! "k" = Some (VObj 1).
Proof.
  cbv zeta. split; [by_running|]. split; [by_running|].
  eexists. split; [by_running|]. split; [by_running|]. split; by_running.
Qed.


(** C6, counterexample.  (a) A factory whose constructor returns an object
    made beforehand ([const shared = {}; registerFactory('c', () => shared)]):
    two [get('c')] calls run it twice and return the same reference.
    (b) A factory whose constructor looks up a lazy singleton:
    [get('userDto')] promotes ['usersApi'] and so changes the registry. *)
Lemma factory_get_may_repeat_a_value_and_change_registry :
  (let w := allocated initial_world in
   exists w1 w2,
     registerFactory "c" (Return (VObj 0)) w = Returns tt w1 /\
     locate_n 1 "c" 2 w1 = Returns [VObj 0; VObj 0] w2 /\
     constructions "c" (trace w2) = 2) /\
  (let w := after_calls 1 dto_calls in
   factory_only "userDto" usersService_factory w /\
   singletons (locator w) !! "usersApi" = None /\
   exists v w',
     locate 4 "userDto" w = Returns v w' /\
     singletons (locator w') !! "usersApi" = Some (VObj 0) /\
     locator w' <> locator w).
Proof.
  cbv zeta. split.
  - eexists _, _. split; [by_running|]. split; by_running.
  - split; [repeat split; by_running|]. split; [by_running|].
    eexists _, _. split; [by_running|]. split; [by_running|].
    intros E.
    assert (singletons (locator (after_calls 1 dto_calls)) !! "usersApi" =
            Some (VObj 0)) as H by (rewrite <- E; by_running).
    vm_compute in H. discriminate.
Qed.

(** The counting constructor of the tests returns a new object each time. *)
Lemma counting_factory_returns_new_object : returns_new_object 3 counting_factory.
Proof.
  intros w v w' H. unfold counting_factory in H. simpl in H. unfold_calls.
  injection H as <- <-. exists (heap_next w). simpl. split; [reflexivity | lia].
Defined.

(** C6 at work: three [get]s on the tests' counting factory give three
    distinct objects, three constructor calls and an unchanged registry. *)
Lemma factory_constructs_on_every_get_witness :
  isRegistered_in (locator initial_world) "factory" = false /\
  registerFactory "factory" counting_factory initial_world =
    Returns tt factory_registered /\
  locate_n 3 "factory" 3 factory_registered =
    Returns [VObj 0; VObj 1; VObj 2] factory_used /\
  removals "factory" (trace factory_used) =
    removals "factory" (trace factory_registered) /\
  gets "factory" (trace factory_used) = 3 /\
  constructions "factory" (trace factory_used) = 3 /\
  vars factory_used !! "callCount" = Some 3%Z /\
  factory_only "factory" counting_factory factory_used /\
  locator factory_used = locator factory_registered /\
  NoDup [VObj 0; VObj 1; VObj 2].
Proof.
  assert (isRegistered_in (locator initial_world) "factory" = false) as H0
    by by_running.
  assert (registerFactory "factory" counting_factory initial_world =
            Returns tt factory_registered) as H1 by by_running.
  assert (locate_n 3 "factory" 3 factory_registered =
            Returns [VObj 0; VObj 1; VObj 2] factory_used) as H2 by by_running.
  assert (removals "factory" (trace factory_used) =
            removals "factory" (trace factory_registered)) as H3 by by_running.
  assert (gets "factory" (trace factory_used) = 3) as H4 by by_running.
  destruct (factory_constructs_on_every_get 3 "factory" counting_factory
              initial_world factory_registered H0 H1)
    as (_ & _ & _ & _ & Hn).
  destruct (Hn 3 [VObj 0; VObj 1; VObj 2] factory_used H2 H3)
    as (_ & Hfo & _ & Hc & Hsame & Hnd).
  split; [exact H0|]. split; [exact H1|]. split; [exact H2|]. split; [exact H3|].
  split; [exact H4|]. split; [exact (Hc H4)|]. split; [by_running|].
  split; [exact Hfo|].
  split; [apply Hsame; repeat (constructor; intros) |].
  exact (Hnd counting_factory_returns_new_object).
Defined.

(** ** The messages the tests expect *)

Example duplicate_message_of_test :
  already_registered_message "test" =
  "Service with key " ++ dquote ++ "test" ++ dquote ++ " is already registered".
Proof. by_running. Qed.

Example missing_message_of_test :
  String.prefix
    ("Service with key " ++ dquote ++ "nonexistent" ++ dquote ++ " is not registered")
    (not_registered_message "nonexistent") = true.
Proof. by_running. Qed.

(** * Part V: further properties of the container *)

(** ** Replacing registrations *)

(** X1.  The test set-up of the class comment, [reset()] followed by
    [registerSingleton(key, v)], never fails, whatever was registered
    before: afterwards [get(key)] returns [v], no other key is registered,
    and no constructor has been run on the way. *)
Theorem reset_then_register_installs_mock (key : string) (v : Value) (w : World) :
  exists w1 w2,
    reset w = Returns tt w1 /\
    registerSingleton key v w1 = Returns v w2 /\
    (forall fuel, exists w3,
       locate fuel key w2 = Returns v w3 /\ locator w3 = locator w2) /\
    (forall other, other <> key -> isRegistered_in (locator w2) other = false) /\
    (forall j, constructions j (trace w2) = constructions j (trace w)).
Proof.
  eexists _, _. split; [apply reset_returns|].
  split; [apply registerSingleton_fresh; reflexivity|].
  split; [|split].
  - intros fuel. eexists.
    split; [apply locate_singleton, lookup_insert_eq | reflexivity].
  - intros other Hne. apply isRegistered_in_false; simpl.
    rewrite lookup_insert_ne by congruence. now rewrite !lookup_empty.
  - intros j. trace_cases.
Qed.

(** X2.  [unregister(key)] frees the key for any kind of registration,
    whatever held it before (one map, several, or none): each of the three
    registration methods then succeeds, the key is held by exactly one map,
    a singleton registered this way is what [get(key)] returns, and every
    other key has in each of the three maps the entry it had before. *)
Theorem unregister_then_register_replaces
    (key : string) (v : Value) (f : Factory) (w : World) :
  exists w1, unregister key w = Returns tt w1 /\
    (exists w2, registerSingleton key v w1 = Returns v w2 /\
       holders (locator w2) key = 1 /\
       (forall fuel, exists w3,
          locate fuel key w2 = Returns v w3 /\ locator w3 = locator w2) /\
       (forall other, other <> key ->
          same_entries (locator w) (locator w2) other)) /\
    (exists w2, registerLazySingleton key f w1 = Returns tt w2 /\
       holders (locator w2) key = 1 /\
       lazySingletonFactories (locator w2) !! key = Some f /\
       (forall other, other <> key ->
          same_entries (locator w) (locator w2) other)) /\
    (exists w2, registerFactory key f w1 = Returns tt w2 /\
       holders (locator w2) key = 1 /\
       factories (locator w2) !! key = Some f /\
       (forall other, other <> key ->
          same_entries (locator w) (locator w2) other)) /\
    (forall j, constructions j (trace w1) = constructions j (trace w)).
Proof.
  eexists. split; [apply unregister_returns|].
  set (w1 := with_locator (delete_factory key)
               (with_locator (delete_lazySingletonFactory key)
                  (with_locator (delete_singleton key)
                     (noted (Unregistered key) w)))).
  assert (isRegistered_in (locator w1) key = false) as Hfree.
  { apply isRegistered_in_false; simpl. now rewrite !lookup_delete_eq. }
  pose proof Hfree as Hfree'.
  apply isRegistered_in_false in Hfree' as (Hs & Hl & Hf).
  assert (forall other, other <> key ->
            same_entries (locator w) (locator w1) other) as Hother.
  { intros other Hne. repeat split; simpl;
      now rewrite lookup_delete_ne by congruence. }
  split; [|split; [|split; [|intros j; trace_cases]]].
  - eexists. split; [now apply registerSingleton_fresh|]. split; [|split].
    + rewrite (holders_counts _ _ true false false); [reflexivity | | |].
      * apply has_true. simpl. rewrite lookup_insert_eq. eauto.
      * now apply has_false.
      * now apply has_false.
    + intros fuel. eexists.
      split; [apply locate_singleton, lookup_insert_eq | reflexivity].
    + intros other Hne. destruct (Hother other Hne) as (E1 & E2 & E3).
      repeat split; simpl; [|exact E2|exact E3].
      rewrite lookup_insert_ne by congruence. exact E1.
  - eexists. split; [now apply registerLazySingleton_fresh|]. split; [|split].
    + rewrite (holders_counts _ _ false true false); [reflexivity | | |].
      * now apply has_false.
      * apply has_true. simpl. rewrite lookup_insert_eq. eauto.
      * now apply has_false.
    + apply lookup_insert_eq.
    + intros other Hne. destruct (Hother other Hne) as (E1 & E2 & E3).
      repeat split; simpl; [exact E1| |exact E3].
      rewrite lookup_insert_ne by congruence. exact E2.
  - eexists. split; [now apply registerFactory_fresh|]. split; [|split].
    + rewrite (holders_counts _ _ false false true); [reflexivity | | |].
      * now apply has_false.
      * now apply has_false.
      * apply has_true. simpl. rewrite lookup_insert_eq. eauto.
    + apply lookup_insert_eq.
    + intros other Hne. destruct (Hother other Hne) as (E1 & E2 & E3).
      repeat split; simpl; [exact E1|exact E2|].
      rewrite lookup_insert_ne by congruence. exact E3.
Qed.

(** ** Constructors that look services up *)

Lemma run_CallGet n dep k w :
  run (S n) (CallGet dep k) w =
    match locate n dep w with
    | Returns v w' => run n (k v) w'
    | Throws e w' => Throws e w'
    | OutOfFuel => OutOfFuel
    end.
Proof. reflexivity. Qed.

Lemma resolves_with_locator key f w w' :
  locator w' = locator w -> resolves_with key f w -> resolves_with key f w'.
Proof. unfold resolves_with. now intros ->. Qed.

(** What [get] does with the outcome of the constructor it calls. *)
Lemma locate_resolves_with fuel key f w :
  resolves_with key f w ->
  match run fuel f (constructing key w) with
  | Returns v w' => exists w2, locate fuel key w = Returns v w2 /\
                      (locator w2 = locator w' \/ w2 = promoted key v w')
  | Throws e w' => locate fuel key w = Throws e w'
  | OutOfFuel => locate fuel key w = OutOfFuel
  end.
Proof.
  intros (Hs & [Hl|[Hl Hf]]).
  - rewrite (locate_lazy _ _ _ _ Hs Hl).
    destruct (run fuel f _); eauto.
  - rewrite (locate_factory _ _ _ _ Hs Hl Hf).
    destruct (run fuel f _); eauto.
Qed.

(** X3.  A constructor that starts by looking up a dependency which is not
    registered: [get(key)] throws the not-registered error of the
    dependency (its message names the dependency, not [key]), changes
    nothing in the registry, and [key] stays registered as it was.  Once the
    dependency is registered, [get(key)] hands it to the rest of the
    constructor. *)
Theorem missing_dependency_is_reported_and_recoverable
    (fuel : nat) (key dep : string) (k : Value -> Factory) (w : World) :
  resolves_with key (CallGet dep k) w ->
  isRegistered_in (locator w) dep = false ->
  exists w',
    locate (S fuel) key w = Throws (NotRegisteredError dep) w' /\
    locator w' = locator w /\
    forall d, exists w2,
      registerSingleton dep d w' = Returns d w2 /\
      match run fuel (k d) (noted (Got dep) (constructing key w2)) with
      | Returns v w3 => exists w4, locate (S fuel) key w2 = Returns v w4
      | Throws e w3 => locate (S fuel) key w2 = Throws e w3
      | OutOfFuel => locate (S fuel) key w2 = OutOfFuel
      end.
Proof.
  intros Hkey Hdep.
  exists (noted (Got dep) (constructing key w)).
  split; [|split; [reflexivity|]].
  - pose proof (locate_resolves_with (S fuel) key _ w Hkey) as H.
    rewrite run_CallGet, (locate_missing fuel dep (constructing key w) Hdep) in H.
    exact H.
  - intros d. eexists. split; [now apply registerSingleton_fresh|].
    set (w2 := with_locator (set_singleton dep d)
                 (noted (Got dep) (constructing key w))).
    assert (key <> dep) as Hne.
    { intros ->. apply isRegistered_in_false in Hdep as (Hs & Hl & Hf).
      destruct Hkey as (_ & [Hl'|[_ Hf']]); congruence. }
    assert (resolves_with key (CallGet dep k) w2) as Hkey2.
    { destruct Hkey as (Hs & Hrest). split; [|exact Hrest].
      simpl. now rewrite lookup_insert_ne by congruence. }
    pose proof (locate_resolves_with (S fuel) key _ w2 Hkey2) as H.
    rewrite run_CallGet in H.
    rewrite (locate_singleton fuel dep d (constructing key w2)) in H
      by apply lookup_insert_eq.
    destruct (run fuel (k d) _) as [v w3|e w3|]; [|exact H|exact H].
    destruct H as (w4 & H & _). eauto.
Qed.

Lemma circular_locate (a b : string) (ka kb : Value -> Factory) :
  forall fuel w,
    resolves_with a (CallGet b ka) w ->
    resolves_with b (CallGet a kb) w ->
    locate fuel a w = OutOfFuel /\ locate fuel b w = OutOfFuel.
Proof.
  induction fuel as [|n IH]; intros w Ha Hb.
  - split.
    + apply (locate_resolves_with 0 a _ w Ha).
    + apply (locate_resolves_with 0 b _ w Hb).
  - split.
    + pose proof (locate_resolves_with (S n) a _ w Ha) as H.
      rewrite run_CallGet in H.
      destruct (IH (constructing a w)) as [_ Eb];
        [eapply resolves_with_locator; [|exact Ha]; reflexivity
        |eapply resolves_with_locator; [|exact Hb]; reflexivity|].
      now rewrite Eb in H.
    + pose proof (locate_resolves_with (S n) b _ w Hb) as H.
      rewrite run_CallGet in H.
      destruct (IH (constructing b w)) as [Ea _];
        [eapply resolves_with_locator; [|exact Ha]; reflexivity
        |eapply resolves_with_locator; [|exact Hb]; reflexivity|].
      now rewrite Ea in H.
Qed.

Lemma get_resolves_with (call : Factory -> M Value) key f w :
  resolves_with key f w ->
  match call f (constructing key w) with
  | Returns v w' => exists w2, get call key w = Returns v w2
  | Throws e w' => get call key w = Throws e w'
  | OutOfFuel => get call key w = OutOfFuel
  end.
Proof.
  intros (Hs & [Hl|[Hl Hf]]).
  - rewrite (get_lazy _ _ _ _ Hs Hl). destruct (call f _); eauto.
  - rewrite (get_factory _ _ _ _ Hs Hl Hf). destruct (call f _); eauto.
Qed.

Lemma run_on_stack_CallGet d dep k w :
  run_on_stack (S d) (CallGet dep k) w =
    match locate_on_stack d dep w with
    | Returns v w' => run_on_stack (S d) (k v) w'
    | Throws e w' => Throws e w'
    | OutOfFuel => OutOfFuel
    end.
Proof. reflexivity. Qed.

Lemma circular_overflow (a b : string) (ka kb : Value -> Factory) :
  forall depth w,
    resolves_with a (CallGet b ka) w ->
    resolves_with b (CallGet a kb) w ->
    (exists w', locate_on_stack depth a w = Throws RangeError w' /\
                locator w' = locator w) /\
    (exists w', locate_on_stack depth b w = Throws RangeError w' /\
                locator w' = locator w).
Proof.
  induction depth as [|d IH]; intros w Ha Hb.
  - split.
    + exists (constructing a w). split; [|reflexivity].
      apply (get_resolves_with (run_on_stack 0) a _ w Ha).
    + exists (constructing b w). split; [|reflexivity].
      apply (get_resolves_with (run_on_stack 0) b _ w Hb).
  - split.
    + pose proof (get_resolves_with (run_on_stack (S d)) a _ w Ha) as H.
      rewrite run_on_stack_CallGet in H.
      destruct (IH (constructing a w)) as [_ (w' & Eb & Hw')];
        [eapply resolves_with_locator; [|exact Ha]; reflexivity
        |eapply resolves_with_locator; [|exact Hb]; reflexivity|].
      rewrite Eb in H. exists w'. split; [exact H | exact Hw'].
    + pose proof (get_resolves_with (run_on_stack (S d)) b _ w Hb) as H.
      rewrite run_on_stack_CallGet in H.
      destruct (IH (constructing b w)) as [(w' & Ea & Hw') _];
        [eapply resolves_with_locator; [|exact Ha]; reflexivity
        |eapply resolves_with_locator; [|exact Hb]; reflexivity|].
      rewrite Ea in H. exists w'. split; [exact H | exact Hw'].
Qed.

(** X4.  The container detects no cycles.  When the constructor of [a]
    starts by looking up [b] and the constructor of [b] starts by looking up
    [a] ([a = b] is the constructor that asks for its own key), the calls
    nest until the stack is full, whatever its size: [get(a)] and [get(b)]
    end by throwing the engine's [RangeError], not the not-registered error
    and not a value, and they leave the registry as it was.  With no limit
    on the nesting, no number of steps brings either call to an end. *)
Theorem circular_lookup_overflows_the_stack
    (a b : string) (ka kb : Value -> Factory) (w : World) :
  resolves_with a (CallGet b ka) w ->
  resolves_with b (CallGet a kb) w ->
  (forall depth,
     (exists w', locate_on_stack depth a w = Throws RangeError w' /\
                 locator w' = locator w) /\
     (exists w', locate_on_stack depth b w = Throws RangeError w' /\
                 locator w' = locator w)) /\
  (forall fuel, locate fuel a w = OutOfFuel /\ locate fuel b w = OutOfFuel).
Proof.
  intros Ha Hb. split.
  - intros depth. exact (circular_overflow a b ka kb depth w Ha Hb).
  - intros fuel. exact (circular_locate a b ka kb fuel w Ha Hb).
Qed.

(** ** What [get] leaves in place *)

Lemma only_promotes_locator w w' :
  locator w' = locator w -> stored_only_locate (locator w) -> only_promotes w w'.
Proof.
  intros E H. unfold only_promotes. rewrite E.
  split; [exact H|]. split; [reflexivity|]. split; auto.
Qed.

Lemma only_promotes_trans a b c :
  only_promotes a b -> only_promotes b c -> only_promotes a c.
Proof.
  intros (_ & F1 & S1 & L1) (T2 & F2 & S2 & L2).
  split; [exact T2|]. split; [congruence|]. split; [auto|].
  intros j. destruct (L1 j) as [E1|(I1 & N1 & P1)];
    destruct (L2 j) as [E2|(I2 & N2 & P2)].
  - left. congruence.
  - right. rewrite <- E1. auto.
  - right. split; [exact I1|]. split; [congruence|].
    destruct P1 as [v Hv]. exists v. now apply S2.
  - right. split; [exact I1|]. split; [exact N2 | exact P2].
Qed.

Lemma only_promotes_promoted key f v w w1 :
  singletons (locator w) !! key = None ->
  lazySingletonFactories (locator w) !! key = Some f ->
  only_promotes w w1 -> only_promotes w (promoted key v w1).
Proof.
  intros Hs Hl ((TL & TF) & F1 & S1 & L1).
  split; [|split; [exact F1|split]].
  - split; [|exact TF]. simpl. intros j g H.
    apply lookup_delete_Some in H as [_ H]. eauto.
  - intros j u Hj. assert (j <> key) as Hne by congruence.
    simpl. rewrite lookup_insert_ne by congruence. auto.
  - intros j. destruct (decide (j = key)) as [->|Hne].
    + right. split; [eauto|]. simpl.
      rewrite lookup_delete_eq, lookup_insert_eq. eauto.
    + simpl. rewrite lookup_delete_ne, lookup_insert_ne by congruence.
      apply L1.
Qed.

Lemma get_only_promotes (call : Factory -> M Value) :
  (forall f w, only_locates f -> stored_only_locate (locator w) ->
               along only_promotes w (call f w)) ->
  forall key w, stored_only_locate (locator w) ->
                along only_promotes w (get call key w).
Proof.
  intros Hcall key w Hw.
  assert (only_promotes w (noted (Got key) w)) as Hgot
    by now apply only_promotes_locator.
  destruct (singletons (locator w) !! key) as [v|] eqn:Hs.
  { now rewrite (get_singleton _ _ _ _ Hs). }
  destruct (lazySingletonFactories (locator w) !! key) as [f|] eqn:Hl.
  { rewrite (get_lazy _ _ _ _ Hs Hl).
    assert (only_locates f) as Hf by (destruct Hw as [H _]; eauto).
    specialize (Hcall f (constructing key w) Hf Hw).
    destruct (call f _) as [v w1|e w1|]; simpl in *; auto.
    eapply only_promotes_promoted; eauto. }
  destruct (factories (locator w) !! key) as [f|] eqn:Hf.
  { rewrite (get_factory _ _ _ _ Hs Hl Hf).
    assert (only_locates f) as Hf' by (destruct Hw as [_ H]; eauto).
    exact (Hcall f (constructing key w) Hf' Hw). }
  now rewrite get_missing by now apply isRegistered_in_false.
Qed.

Lemma run_only_promotes (fuel : nat) : forall f w,
  only_locates f -> stored_only_locate (locator w) ->
  along only_promotes w (run fuel f w).
Proof.
  induction fuel as [|n IH]; intros f w Hf Hw; [exact I|].
  assert (only_promotes w w) as Hrefl by now apply only_promotes_locator.
  assert (forall A (m : M A) (k : A -> Factory),
            along only_promotes w (m w) ->
            (forall a, only_locates (k a)) ->
            along only_promotes w ((m ≫= fun a => run n (k a)) w)) as Hbind.
  { intros A m k Hm Hk. apply along_bind; [exact only_promotes_trans | exact Hm |].
    intros a w' E. rewrite E in Hm. destruct Hm as [T _]. now apply IH. }
  inversion Hf; subst; simpl.
  - exact Hrefl.
  - exact Hrefl.
  - apply Hbind; [|assumption]. now apply only_promotes_locator.
  - apply Hbind; [|assumption]. now apply only_promotes_locator.
  - apply Hbind; [|assumption]. apply get_only_promotes; [exact IH | exact Hw].
  - apply Hbind; [|assumption]. exact Hrefl.
  - apply Hbind; [|assumption].
    unfold try_catch. specialize (IH body w H Hw).
    destruct (run n body w); simpl in *; auto.
Qed.

Lemma only_promotes_registered w w' j :
  only_promotes w w' ->
  isRegistered_in (locator w) j = true -> isRegistered_in (locator w') j = true.
Proof.
  intros (_ & F & S & L) H. apply isRegistered_in_true in H.
  apply isRegistered_in_true. destruct H as [[v Hv]|[[f Hf]|Hf]].
  - left. exists v. auto.
  - destruct (L j) as [E|(_ & _ & P)]; [|left; exact P].
    right; left. rewrite E, Hf. eauto.
  - right; right. now rewrite F.
Qed.

(** X5.  As long as the constructors held by the container only look
    services up, [get] takes no registration away and replaces none,
    whichever key it is called with and whether it returns or throws: every
    singleton keeps its value, the factories are unchanged, each lazy
    singleton either still waits with the same constructor or has become a
    singleton, and every key registered before is registered after. *)
Theorem get_keeps_registrations (fuel : nat) (key : string) (w w' : World) :
  stored_only_locate (locator w) ->
  world_after (locate fuel key w) = Some w' ->
  factories (locator w') = factories (locator w) /\
  (forall j v, singletons (locator w) !! j = Some v ->
               singletons (locator w') !! j = Some v) /\
  (forall j f, lazySingletonFactories (locator w) !! j = Some f ->
     lazySingletonFactories (locator w') !! j = Some f \/
     (lazySingletonFactories (locator w') !! j = None /\
      is_Some (singletons (locator w') !! j))) /\
  (forall j, isRegistered_in (locator w) j = true ->
             isRegistered_in (locator w') j = true) /\
  stored_only_locate (locator w').
Proof.
  intros Hw Hafter.
  pose proof (get_only_promotes (run fuel) (run_only_promotes fuel) key w Hw) as H.
  unfold locate in Hafter.
  assert (only_promotes w w') as Hp.
  { destruct (get (run fuel) key w); simpl in *; try discriminate;
      now injection Hafter as <-. }
  pose proof Hp as (T & F & S & L).
  split; [exact F|]. split; [exact S|]. split; [|split; [|exact T]].
  - intros j f Hj. destruct (L j) as [E|(_ & N & P)]; [left; congruence|].
    right. auto.
  - intros j. now apply only_promotes_registered.
Qed.

(** X9.  A lazy singleton whose constructor starts by looking up another
    lazy singleton (the wiring of the README), resolved by the application
    (not from inside a constructor that is still running): the first
    [get(key)] resolves the dependency first, hands its value to the rest
    of the constructor, and leaves both keys as singletons.  After any
    further calls of the application during which nobody enters
    [unregister(dep)] or [reset()], [get(dep)] returns the very value the
    service was built with, and the constructor of the dependency has not
    run again. *)
Theorem lazy_dependency_is_shared
    (fuel : nat) (key dep : string) (k : Value -> Factory) (g : Factory)
    (d v : Value) (w w1 w2 : World) :
  stored_only_locate (locator w) ->
  singletons (locator w) !! key = None ->
  lazySingletonFactories (locator w) !! key = Some (CallGet dep k) ->
  singletons (locator w) !! dep = None ->
  lazySingletonFactories (locator w) !! dep = Some g ->
  run fuel g (constructing dep (constructing key w)) = Returns d w1 ->
  run fuel (k d) (promoted dep d w1) = Returns v w2 ->
  exists w3,
    locate (S fuel) key w = Returns v w3 /\
    singletons (locator w3) !! key = Some v /\
    singletons (locator w3) !! dep = Some d /\
    lazySingletonFactories (locator w3) !! key = None /\
    forall fuel' cs w4,
      perform_all fuel' cs w3 = Some w4 ->
      removals dep (trace w4) = removals dep (trace w3) ->
      forall fuel'', exists w5,
        locate fuel'' dep w4 = Returns d w5 /\ locator w5 = locator w4 /\
        constructions dep (trace w5) = constructions dep (trace w3).
Proof.
  intros Hw Hs Hl Hsd Hld Hg Hk.
  assert (dep <> key) as Hne.
  { intros ->. rewrite Hl in Hld. injection Hld as <-.
    assert (resolves_with key (CallGet key k)
              (constructing key (constructing key w))) as Hself
      by (split; [exact Hs | left; exact Hl]).
    destruct fuel as [|n]; [discriminate|].
    rewrite run_CallGet in Hg.
    destruct (circular_locate key key k k n _ Hself Hself) as [E _].
    now rewrite E in Hg. }
  assert (only_locates g) as Hog by (destruct Hw as [H _]; eauto).
  assert (forall x, only_locates (k x)) as Hok.
  { destruct Hw as [H _]. specialize (H _ _ Hl). now inversion H. }
  pose proof (run_only_promotes fuel g (constructing dep (constructing key w))
                Hog Hw) as Hp1.
  rewrite Hg in Hp1. simpl in Hp1.
  assert (only_promotes (constructing key w) (promoted dep d w1)) as Hp1'.
  { eapply (only_promotes_promoted dep g d (constructing key w) w1);
      [exact Hsd | exact Hld |].
    eapply only_promotes_trans; [|exact Hp1].
    now apply only_promotes_locator. }
  pose proof (run_only_promotes fuel (k d) (promoted dep d w1) (Hok d)
                (proj1 Hp1')) as Hp2.
  rewrite Hk in Hp2. simpl in Hp2. destruct Hp2 as (_ & _ & S2 & _).
  assert (singletons (locator w2) !! dep = Some d) as Hd2.
  { apply S2. simpl. apply lookup_insert_eq. }
  exists (promoted key v w2). split; [|split; [|split; [|split]]].
  - rewrite (locate_lazy _ _ _ _ Hs Hl), run_CallGet.
    rewrite (locate_lazy fuel dep g (constructing key w) Hsd Hld), Hg, Hk.
    reflexivity.
  - simpl. apply lookup_insert_eq.
  - simpl. now rewrite lookup_insert_ne by congruence.
  - simpl. apply lookup_delete_eq.
  - intros fuel' cs w4 Hcs Hrem fuel''.
    destruct (perform_all_respects _ (singleton_kept_respected dep d) _ _ _ _ Hcs)
      as [_ Hkept].
    destruct Hkept as [Hd4 Hc4]; [exact Hrem | |].
    { simpl. now rewrite lookup_insert_ne by congruence. }
    eexists. split; [now apply locate_singleton|].
    split; [reflexivity|]. rewrite <- Hc4. trace_cases.
Qed.

(** ** The two messages *)

Lemma length_append (a b : string) :
  String.length (a ++ b) = String.length a + String.length b.
Proof.
  induction a as [|c a IH]; [reflexivity|].
  change (S (String.length (a ++ b)) = S (String.length a + String.length b)).
  now rewrite IH.
Qed.

Lemma append_inj_l (p x y : string) : p ++ x = p ++ y -> x = y.
Proof.
  induction p as [|c p IH]; intros H; [exact H|].
  change (String c (p ++ x) = String c (p ++ y)) in H.
  injection H as H. now apply IH.
Qed.

Lemma append_inj_r (s : string) : forall x y, x ++ s = y ++ s -> x = y.
Proof.
  intros x y H.
  assert (String.length x = String.length y) as Hlen.
  { apply (f_equal String.length) in H. rewrite !length_append in H. lia. }
  revert y H Hlen. induction x as [|c x IH]; intros [|c' y] H Hlen;
    try discriminate; [reflexivity|].
  change (String c (x ++ s) = String c' (y ++ s)) in H.
  injection H as -> H. f_equal. apply IH; [exact H|].
  simpl in Hlen. lia.
Qed.

Lemma last_ascii_append (x : string) (c : ascii) (s : string) :
  last_ascii (x ++ String c s) = last_ascii (String c s).
Proof.
  induction x as [|c' x IH]; [reflexivity|].
  change (last_ascii (String c' (x ++ String c s)) = last_ascii (String c s)).
  rewrite <- IH. simpl.
  destruct (x ++ String c s) eqn:E; [|reflexivity].
  destruct x; discriminate.
Qed.

(** X6.  The container throws plain [Error]s, so the message is all a
    caller has to tell them apart.  The "already registered" message of any
    key differs from the "not registered" message of any key, and each of
    the two messages determines the key it was made for. *)
Theorem error_messages_identify_error_and_key :
  (forall k j, already_registered_message k <> not_registered_message j) /\
  (forall k j, already_registered_message k = already_registered_message j -> k = j) /\
  (forall k j, not_registered_message k = not_registered_message j -> k = j) /\
  (forall k j, DuplicateKeyError k <> NotRegisteredError j).
Proof.
  assert (forall k j, already_registered_message k <> not_registered_message j)
    as Hdiff.
  { intros k j H. apply (f_equal last_ascii) in H.
    unfold already_registered_message, not_registered_message in H.
    rewrite !append_assoc in H.
    change (last_ascii (("Service with key " ++ dquote ++ k) ++
                        String (ascii_of_nat 34) " is already registered") =
            last_ascii (("Service with key " ++ dquote ++ j) ++
                        String (ascii_of_nat 34)
                          (" is not registered. " ++
                           "Make sure to register it using registerSingleton(), registerLazySingleton(), or registerFactory() " ++
                           "before attempting to access it."))) in H.
    rewrite !last_ascii_append in H. vm_compute in H. discriminate. }
  split; [exact Hdiff|]. split; [|split].
  - intros k j H. unfold already_registered_message in H.
    apply append_inj_l, append_inj_l in H. now apply append_inj_r in H.
  - intros k j H. unfold not_registered_message in H.
    rewrite !append_assoc in H.
    apply append_inj_l, append_inj_l in H. now apply append_inj_r in H.
  - intros k j H. apply (Hdiff k j).
    exact (f_equal (fun e => match e with Error m => m end) H).
Qed.

(** ** The further properties at work *)

Lemma reachable_stored_only_locate (w : World) :
  reachable_by registers_locating_constructors w -> stored_only_locate (locator w).
Proof.
  intros Hreach. induction Hreach as [|fuel c w w' _ IH Hc Hstep].
  { split; simpl; intros key f H; now rewrite lookup_empty in H. }
  destruct IH as [Hl Hf]. destruct c; cbn [perform] in Hstep.
  - unfold_calls. destruct (isRegistered_in (locator w) key);
      simpl in Hstep; injection Hstep as <-; split; assumption.
  - unfold_calls. destruct (isRegistered_in (locator w) key);
      simpl in Hstep; injection Hstep as <-; (split; [|exact Hf]); [exact Hl|].
    simpl. intros key' f' H.
    apply lookup_insert_Some in H as [[_ <-]|[_ H]]; eauto.
  - unfold_calls. destruct (isRegistered_in (locator w) key);
      simpl in Hstep; injection Hstep as <-; (split; [exact Hl|]); [exact Hf|].
    simpl. intros key' f' H.
    apply lookup_insert_Some in H as [[_ <-]|[_ H]]; eauto.
  - pose proof (get_only_promotes (run fuel) (run_only_promotes fuel) key w
                  (conj Hl Hf)) as Hg.
    unfold locate in Hstep. destruct (get (run fuel) key w); simpl in *;
      try discriminate; injection Hstep as <-; apply Hg.
  - unfold_calls. injection Hstep as <-. split; assumption.
  - unfold_calls. injection Hstep as <-.
    split; simpl; intros key' f' H; apply lookup_delete_Some in H as [_ H]; eauto.
  - unfold_calls. injection Hstep as <-.
    split; simpl; intros key' f' H; now rewrite lookup_empty in H.
Qed.

(** X3 at work: the README's service, registered without its API. *)
Lemma missing_dependency_is_reported_and_recoverable_witness :
  resolves_with "usersService" (CallGet "usersApi" (fun _ => NewObject (fun o => Return o)))
    service_without_api /\
  isRegistered_in (locator service_without_api) "usersApi" = false /\
  exists w',
    locate 3 "usersService" service_without_api =
      Throws (NotRegisteredError "usersApi") w' /\
    locator w' = locator service_without_api.
Proof.
  assert (resolves_with "usersService"
            (CallGet "usersApi" (fun _ => NewObject (fun o => Return o)))
            service_without_api) as H0
    by (split; [by_running | left; by_running]).
  assert (isRegistered_in (locator service_without_api) "usersApi" = false) as H1
    by by_running.
  destruct (missing_dependency_is_reported_and_recoverable 2 "usersService"
              "usersApi" _ service_without_api H0 H1) as (w' & Hthrow & Hsame & _).
  split; [exact H0|]. split; [exact H1|]. exists w'. split; assumption.
Defined.

(** X4 at work: a lazy singleton and a factory that ask for each other, on
    a stack with room for a thousand nested constructor calls.  A
    constructor that wraps the lookup of its own key in [try]/[catch]
    catches the error at the bottom of the stack and every call returns. *)
Lemma circular_lookup_overflows_the_stack_witness :
  resolves_with "a" (CallGet "b" (fun v => Return v)) cycle_world /\
  resolves_with "b" (CallGet "a" (fun v => Return v)) cycle_world /\
  (exists w', locate_on_stack 1000 "a" cycle_world = Throws RangeError w' /\
              locator w' = locator cycle_world) /\
  (exists w', locate_on_stack 40 "a" recovering_world = Returns (VNum 0) w' /\
              singletons (locator w') !! "a" = Some (VNum 0) /\
              constructions "a" (trace w') = 41).
Proof.
  assert (resolves_with "a" (CallGet "b" (fun v => Return v)) cycle_world) as Ha
    by (split; [by_running | left; by_running]).
  assert (resolves_with "b" (CallGet "a" (fun v => Return v)) cycle_world) as Hb
    by (split; [by_running | right; split; by_running]).
  split; [exact Ha|]. split; [exact Hb|]. split.
  - exact (proj1 (proj1 (circular_lookup_overflows_the_stack "a" "b" _ _
                           cycle_world Ha Hb) 1000)).
  - eexists. split; [by_running|]. split; by_running.
Defined.

(** X5 at work: resolving the README's factory promotes its lazy dependency
    and takes nothing away. *)
Lemma get_keeps_registrations_witness :
  stored_only_locate (locator dto_world) /\
  world_after (locate 4 "userDto" dto_world) = Some dto_resolved /\
  factories (locator dto_resolved) = factories (locator dto_world) /\
  (forall j, isRegistered_in (locator dto_world) j = true ->
             isRegistered_in (locator dto_resolved) j = true) /\
  singletons (locator dto_resolved) !! "usersApi" = Some (VObj 0).
Proof.
  assert (stored_only_locate (locator dto_world)) as H0.
  { apply (reachable_stored_only_locate dto_world).
    apply (perform_all_reachable _ 1 dto_calls initial_world).
    - constructor.
    - allowed_calls.
    - by_running. }
  assert (world_after (locate 4 "userDto" dto_world) = Some dto_resolved) as H1
    by by_running.
  destruct (get_keeps_registrations 4 "userDto" dto_world dto_resolved H0 H1)
    as (HF & _ & _ & HR & _).
  split; [exact H0|]. split; [exact H1|]. split; [exact HF|].
  split; [exact HR | by_running].
Defined.

(** X9 at work: the README's wiring; the API built for the service is the
    one [get('usersApi')] returns afterwards, also after the service has
    been asked for again and another key has been unregistered. *)
Lemma lazy_dependency_is_shared_witness :
  stored_only_locate (locator readme_registered) /\
  run 2 usersApi_factory
    (constructing "usersApi" (constructing "usersService" readme_registered)) =
    Returns (VObj 0) readme_api_built /\
  run 2 (NewObject (fun o => Return o)) (promoted "usersApi" (VObj 0) readme_api_built) =
    Returns (VObj 1) readme_service_built /\
  exists w3,
    locate 3 "usersService" readme_registered = Returns (VObj 1) w3 /\
    singletons (locator w3) !! "usersService" = Some (VObj 1) /\
    singletons (locator w3) !! "usersApi" = Some (VObj 0) /\
    exists w4,
      perform_all 3 [Get "usersService"; Unregister "usersService"] w3 = Some w4 /\
      forall fuel', exists w5,
        locate fuel' "usersApi" w4 = Returns (VObj 0) w5 /\
        locator w5 = locator w4 /\
        constructions "usersApi" (trace w5) = 1.
Proof.
  assert (stored_only_locate (locator readme_registered)) as H0.
  { split; simpl; intros key f H.
    - apply lookup_insert_Some in H as [[_ <-]|[_ H]]; [repeat (constructor; intros)|].
      apply lookup_insert_Some in H as [[_ <-]|[_ H]]; [repeat (constructor; intros)|].
      now rewrite lookup_empty in H.
    - now rewrite lookup_empty in H. }
  assert (run 2 usersApi_factory
            (constructing "usersApi" (constructing "usersService" readme_registered)) =
          Returns (VObj 0) readme_api_built) as H1 by by_running.
  assert (run 2 (NewObject (fun o => Return o))
            (promoted "usersApi" (VObj 0) readme_api_built) =
          Returns (VObj 1) readme_service_built) as H2 by by_running.
  destruct (lazy_dependency_is_shared 2 "usersService" "usersApi"
              (fun _ => NewObject (fun o => Return o)) usersApi_factory
              (VObj 0) (VObj 1) readme_registered readme_api_built
              readme_service_built H0)
    as (w3 & Hget & Hs & Hd & _ & Hlater);
    [by_running | by_running | by_running | by_running | exact H1 | exact H2 |].
  split; [exact H0|]. split; [exact H1|]. split; [exact H2|].
  exists w3. split; [exact Hget|]. split; [exact Hs|]. split; [exact Hd|].
  assert (locate 3 "usersService" readme_registered =
            Returns (VObj 1) (promoted "usersService" (VObj 1) readme_service_built))
    as Hrun by by_running.
  rewrite Hrun in Hget. injection Hget as <-.
  eexists. split; [by_running|].
  intros fuel'.
  destruct (Hlater 3 [Get "usersService"; Unregister "usersService"] _ eq_refl)
    with (fuel'' := fuel') as (w5 & E1 & E2 & E3); [by_running|].
  exists w5. split; [exact E1|]. split; [exact E2|]. rewrite E3. by_running.
Defined.

(** * Part VI: the rest of [src/LocatorService.ts] *)

(** ** [LocatorService.I] *)

Lemma class_run_with_instance (evs : list ClassEvent) : forall c a,
  _instance c = Some a ->
  (forall b, b ∈ fst (class_run evs c) -> b = a) /\
  _instance (snd (class_run evs c)) = Some a /\
  allocations (snd (class_run evs c)) = allocations c + news evs.
Proof.
  induction evs as [|ev evs IH]; intros c a Hc; simpl.
  - split; [intros b Hb; inversion Hb|]. split; [exact Hc | lia].
  - destruct ev as [| |a' f].
    + unfold LocatorService_I. rewrite Hc.
      destruct (IH c a Hc) as (Hall & Hi & Hn).
      destruct (class_run evs c) as [rs c2]; simpl in *.
      split; [|split; assumption].
      intros b Hb. apply elem_of_cons in Hb as [->|Hb]; auto.
    + destruct (IH (snd (new_instance c)) a Hc) as (Hall & Hi & Hn).
      simpl in *. split; [exact Hall|]. split; [exact Hi | lia].
    + exact (IH (on_instance a' f c) a Hc).
Qed.

(** X7.  However reads of [LocatorService.I], direct [new LocatorService()]
    calls and method calls are interleaved, starting from any class state:
    all reads of [I] return one and the same object, which is the one
    [_instance] already held if it held one; and [I] creates an object at
    most once, on the first read when [_instance] is still empty. *)
Theorem LocatorService_I_is_one_instance (evs : list ClassEvent) (c : Statics) :
  exists a,
    (forall b, b ∈ fst (class_run evs c) -> b = a) /\
    (forall a0, _instance c = Some a0 -> a = a0) /\
    (fst (class_run evs c) <> [] -> _instance (snd (class_run evs c)) = Some a) /\
    allocations (snd (class_run evs c)) =
      allocations c + news evs +
      match _instance c, fst (class_run evs c) with
      | None, _ :: _ => 1
      | _, _ => 0
      end.
Proof.
  destruct (_instance c) as [a0|] eqn:Hc.
  { destruct (class_run_with_instance evs c a0 Hc) as (Hall & Hi & Hn).
    exists a0. split; [exact Hall|]. split; [congruence|].
    split; [intros _; exact Hi | lia]. }
  revert c Hc. induction evs as [|ev evs IH]; intros c Hc; simpl.
  - exists 0. split; [intros b Hb; inversion Hb|]. split; [congruence|].
    split; [congruence | lia].
  - destruct ev as [| |a' f].
    + unfold LocatorService_I. rewrite Hc. simpl.
      set (c1 := {| _instance := Some (allocations c);
                    objects := <[allocations c := new_LocatorService]> (objects c);
                    allocations := S (allocations c) |}).
      destruct (class_run_with_instance evs c1 (allocations c) eq_refl)
        as (Hall & Hi & Hn).
      destruct (class_run evs c1) as [rs c2]; simpl in *.
      exists (allocations c). split; [|split; [congruence|]].
      * intros b Hb. apply elem_of_cons in Hb as [->|Hb]; auto.
      * split; [intros _; exact Hi | lia].
    + destruct (IH (snd (new_instance c)) Hc) as (a & Hall & _ & Hi & Hn).
      simpl in *. exists a. split; [exact Hall|]. split; [congruence|].
      split; [exact Hi | lia].
    + destruct (IH (on_instance a' f c) Hc) as (a & Hall & _ & Hi & Hn).
      exists a. split; [exact Hall|]. split; [congruence|].
      split; [exact Hi | exact Hn].
Qed.

(** ** [useService] *)















(** * Part VII: the ViewModel hook *)

Lemma happen_all_cons ev evs h :
  happen_all (ev :: evs) h = happen_all evs (happen ev h).
Proof. reflexivity. Qed.

Lemma happen_all_app evs1 evs2 h :
  happen_all (evs1 ++ evs2) h = happen_all evs2 (happen_all evs1 h).
Proof. unfold happen_all. apply fold_left_app. Qed.

Ltac unfold_hook :=
  unfold happen, useViewModel, run_effect, run_cleanup, settle, initialize,
    initialize_ends, rebuild, mutate in *.

Ltac hook_cases :=
  unfold_hook; simpl in *;
  repeat match goal with
         | |- context [match ?x with _ => _ end] => destruct x eqn:?; simpl in *
         end.

(** ** [create] *)

Lemma created_once_set (evs : list Happening) : forall h,
  viewModelRef h <> None ->
  created_with (called (happen_all evs h)) = created_with (called h).
Proof.
  induction evs as [|ev evs IH]; intros h Hh; [reflexivity|].
  rewrite happen_all_cons, IH.
  - destruct ev; hook_cases; congruence.
  - destruct ev; hook_cases; congruence.
Qed.

Lemma effect_without_render (h : Hooks) :
  viewModelRef h = None -> run_effect h = h /\ run_cleanup h = h.
Proof.
  intros Hh. unfold run_effect, run_cleanup. rewrite Hh.
  destruct (effect h); split; reflexivity.
Qed.

Lemma settle_keeps (b : bool) (h : Hooks) :
  viewModelRef (settle b h) = viewModelRef h /\
  called (settle b h) = called h /\
  effect (settle b h) = effect h /\
  isMountedRef (settle b h) = isMountedRef h.
Proof.
  unfold settle, initialize_ends.
  destruct (awaiting h); [repeat split|].
  destruct b; simpl; [|repeat split].
  destruct (isMountedRef h); repeat split.
Qed.

Lemma created_once_unset (evs : list Happening) : forall h,
  viewModelRef h = None ->
  created_with (called (happen_all evs h)) =
    (created_with (called h) ++
     match first_render evs with Some o => [args o] | None => [] end)%list.
Proof.
  induction evs as [|ev evs IH]; intros h Hh.
  - simpl. now rewrite app_nil_r.
  - rewrite happen_all_cons. destruct ev as [o| | |b| |f]; simpl happen.
    + rewrite created_once_set by (simpl; congruence).
      simpl. now rewrite Hh.
    + rewrite (proj1 (effect_without_render h Hh)). now apply IH.
    + rewrite (proj2 (effect_without_render h Hh)). now apply IH.
    + destruct (settle_keeps b h) as (Hv & Hc & _).
      rewrite IH by congruence. now rewrite Hc.
    + now rewrite IH.
    + rewrite IH; [reflexivity|]. simpl. now rewrite Hh.
Qed.

(** X10.  [create] is called once per hook state, not once per component.
    On one hook state, whatever happens and in whatever order, the hook
    calls [create] exactly once, on the first render on that state and with
    the arguments of that render; later renders on the same state never
    call it again.  Each time React renders the component on fresh hooks
    (the second call of a StrictMode mount, a remount) [create] is called
    again: over the life of a component it is called once for every run
    that renders. *)
Theorem create_is_called_once_per_hook_state :
  (forall evs : list Happening,
     created_with (called (happen_all evs first_hooks)) =
       match first_render evs with Some o => [args o] | None => [] end) /\
  (forall runs : list (list Happening),
     created_in runs = map args (first_renders runs)).
Proof.
  assert (forall evs : list Happening,
            created_with (called (happen_all evs first_hooks)) =
              match first_render evs with Some o => [args o] | None => [] end)
    as Hone.
  { intros evs. rewrite (created_once_unset evs first_hooks eq_refl).
    reflexivity. }
  split; [exact Hone|].
  induction runs as [|evs runs IH]; [reflexivity|].
  unfold created_in in *. cbn [flat_map first_renders].
  rewrite IH, Hone. destruct (first_render evs); reflexivity.
Qed.

(** On a StrictMode mount [create] runs twice. *)
Example create_runs_twice_on_a_strict_mode_mount :
  created_in strict_mode_mount = [VStr "team"; VStr "team"].
Proof. reflexivity. Qed.

(** ** The callbacks *)

Lemma callbacks_after_render (evs : list Happening) : forall h o,
  effect h = Some o -> callbacks_of o (called h) ->
  effect (happen_all evs h) = Some o /\
  callbacks_of o (called (happen_all evs h)).
Proof.
  induction evs as [|ev evs IH]; intros h o He Hc; [split; assumption|].
  rewrite happen_all_cons. apply IH.
  - destruct ev as [o'| | |b| |f]; simpl happen.
    + simpl. now rewrite He.
    + unfold run_effect, initialize, initialize_ends. rewrite He.
      destruct (viewModelRef h); [|exact He].
      destruct (onInitialise o); simpl; reflexivity.
    + unfold run_cleanup. rewrite He.
      destruct (viewModelRef h); [reflexivity | exact He].
    + destruct (settle_keeps b h) as (_ & _ & -> & _). exact He.
    + exact He.
    + exact He.
  - destruct ev as [o'| | |b| |f]; simpl happen.
    + simpl. destruct (viewModelRef h); exact Hc.
    + unfold run_effect, initialize, initialize_ends. rewrite He.
      destruct (viewModelRef h); [|exact Hc].
      destruct (onInitialise o) as [c0|] eqn:Ei; simpl; [|exact Hc].
      intros b c [H|H]; [injection H as <- <-; exact Ei | now apply Hc].
    + unfold run_cleanup. rewrite He. destruct (viewModelRef h); [|exact Hc].
      simpl. destruct (onDispose o) as [c0|] eqn:Ed; [|exact Hc].
      intros b c [H|H]; [injection H as <- <-; exact Ed | now apply Hc].
    + destruct (settle_keeps b h) as (_ & -> & _). exact Hc.
    + exact Hc.
    + exact Hc.
Qed.

Lemma callbacks_before_render (evs : list Happening) : forall h,
  effect h = None -> callbacks (called h) = [] ->
  match first_render evs with
  | Some o => callbacks_of o (called (happen_all evs h))
  | None => callbacks (called (happen_all evs h)) = []
  end.
Proof.
  induction evs as [|ev evs IH]; intros h He Hc; [exact Hc|].
  rewrite happen_all_cons. destruct ev as [o| | |b| |f]; simpl first_render.
  - apply (callbacks_after_render evs).
    + simpl. now rewrite He.
    + intros b c H. simpl in H.
      destruct (viewModelRef h); simpl in H; rewrite Hc in H; destruct H.
  - apply IH; simpl; unfold run_effect; now rewrite He.
  - apply IH; simpl; unfold run_cleanup; now rewrite He.
  - destruct (settle_keeps b h) as (_ & Hcal & Heff & _).
    apply IH; simpl; congruence.
  - now apply IH.
  - now apply IH.
Qed.

(** X11.  On one hook state, the callbacks the hook calls are those of the
    first render on that state: [onInitialise] and [onDispose] passed on a
    later render on the same state are never called, and if that first
    render passed none, none is ever called on that state.  (On a
    StrictMode mount the state React keeps is that of the second call of
    the component, so the callbacks called are those of that call.) *)
Theorem callbacks_are_those_of_the_first_render_on_the_hook_state
    (evs : list Happening) :
  match first_render evs with
  | Some o =>
      forall b c, In (b, c) (callbacks (called (happen_all evs first_hooks))) ->
                  (if b : bool then onInitialise o else onDispose o) = Some c
  | None => callbacks (called (happen_all evs first_hooks)) = []
  end.
Proof. apply (callbacks_before_render evs first_hooks); reflexivity. Qed.

(** ** [isInitialised] *)

Lemma initialised_stays (evs : list Happening) : forall h,
  isInitialisedState h = true -> isInitialisedState (happen_all evs h) = true.
Proof.
  induction evs as [|ev evs IH]; intros h Hh; [exact Hh|].
  rewrite happen_all_cons. apply IH.
  destruct ev; hook_cases; congruence.
Qed.

(** X12.  After the cleanup has run and until the effect runs again, the
    hook makes no state update: [isInitialised] keeps the value it had,
    whether the promise of [onInitialise] is fulfilled or rejected in the
    meantime and whatever else happens. *)
Theorem no_initialisation_after_unmount (evs : list Happening) (h : Hooks) :
  isMountedRef h = false ->
  forallb (fun ev => negb (is_effect ev)) evs = true ->
  isInitialisedState (happen_all evs h) = isInitialisedState h /\
  isMountedRef (happen_all evs h) = false.
Proof.
  revert h. induction evs as [|ev evs IH]; intros h Hm Hevs; [split; auto|].
  rewrite happen_all_cons. simpl in Hevs. apply andb_true_iff in Hevs as [Hev Hevs].
  assert (isInitialisedState (happen ev h) = isInitialisedState h /\
          isMountedRef (happen ev h) = false) as [E1 E2].
  { destruct ev; try discriminate; hook_cases; split; congruence. }
  destruct (IH (happen ev h) E2 Hevs) as [E3 E4]. split; congruence.
Qed.

Lemma effect_kept (ev : Happening) (h : Hooks) :
  effect (happen ev h) =
    match ev, effect h with
    | Renders o, None => Some o
    | _, e => e
    end.
Proof.
  destruct ev as [o| | |b| |f]; simpl happen.
  - simpl. now destruct (effect h).
  - unfold run_effect, initialize, initialize_ends.
    destruct (effect h) as [e|] eqn:Ee; [|first [exact Ee | reflexivity]].
    destruct (viewModelRef h); [|first [exact Ee | reflexivity]].
    destruct (onInitialise e); simpl; first [exact Ee | reflexivity].
  - unfold run_cleanup.
    destruct (effect h) as [e|] eqn:Ee; [|first [exact Ee | reflexivity]].
    destruct (viewModelRef h); [simpl|]; first [exact Ee | reflexivity].
  - destruct (settle_keeps b h) as (_ & _ & -> & _). now destruct (effect h).
  - simpl. now destruct (effect h).
  - simpl. now destruct (effect h).
Qed.

Lemma uninitialised_without_fulfilment (evs : list Happening) : forall h,
  isInitialisedState h = false ->
  match effect h with
  | Some e => onInitialise e <> None
  | None => match first_render evs with
            | Some o => onInitialise o <> None
            | None => True
            end
  end ->
  forallb (fun ev => negb (is_fulfilment ev)) evs = true ->
  isInitialisedState (happen_all evs h) = false.
Proof.
  induction evs as [|ev evs IH]; intros h Hi He Hevs; [exact Hi|].
  rewrite happen_all_cons. simpl in Hevs. apply andb_true_iff in Hevs as [Hev Hevs].
  apply IH; [| |exact Hevs].
  - destruct ev as [o| | |[|]| |f]; try discriminate; hook_cases; congruence.
  - rewrite effect_kept.
    destruct ev as [o| | |b| |f]; destruct (effect h); simpl in *; exact He.
Qed.

(** X13.  With an [onInitialise] callback on the first render,
    [isInitialised] becomes [true] only when an awaited promise is
    fulfilled: as long as every [onInitialise] promise is rejected (or
    [onInitialise] throws, or its promise stays pending), the ViewModel
    stays uninitialised, through any number of renders, rebuilds and
    remounts. *)
Theorem failed_initialisation_never_initialises
    (evs : list Happening) (o : UseViewModelOptions) (c : nat) :
  first_render evs = Some o ->
  onInitialise o = Some c ->
  forallb (fun ev => negb (is_fulfilment ev)) evs = true ->
  isInitialisedState (happen_all evs first_hooks) = false /\
  forall o', isInitialised (fst (useViewModel o' (happen_all evs first_hooks))) = false.
Proof.
  intros Hfirst Hon Hevs.
  assert (isInitialisedState (happen_all evs first_hooks) = false) as H.
  { apply uninitialised_without_fulfilment; [reflexivity | | exact Hevs].
    simpl. rewrite Hfirst. congruence. }
  split; [exact H | intros o'; exact H].
Qed.

(** X14.  Without an [onInitialise] callback the hook initialises by
    itself as soon as the effect runs, with no promise involved: the first
    render returns [isInitialised = false] (and [isMounted = true]), and
    every render after the effect has run returns [isInitialised = true],
    whatever happens in between. *)
Theorem initialises_at_mount_without_callback
    (o o' : UseViewModelOptions) (evs : list Happening) :
  onInitialise o = None ->
  isInitialised (fst (useViewModel o first_hooks)) = false /\
  isMounted (fst (useViewModel o first_hooks)) = true /\
  isInitialised
    (fst (useViewModel o'
            (happen_all (Renders o :: RunsEffect :: evs) first_hooks))) = true.
Proof.
  intros Hon. split; [reflexivity|]. split; [reflexivity|].
  rewrite !happen_all_cons. simpl fst.
  apply initialised_stays.
  simpl. unfold run_effect, initialize, initialize_ends. simpl.
  now rewrite Hon.
Qed.

(** ** [isMounted] *)

Ltac flags_tac :=
  repeat match goal with
         | H : _ /\ _ |- _ => destruct H
         | H : _ \/ _ |- _ => destruct H
         | H : In _ (_ :: _) |- _ => destruct H
         | H : Some _ = Some _ |- _ => injection H as H
         | H : andb _ _ = true |- _ => apply andb_true_iff in H
         | |- _ /\ _ => split
         | |- _ -> _ => intro
         | |- forall _, _ => intro
         end;
  subst; simpl in *; try congruence; auto.

Lemma mounted_flags_step (ev : Happening) (mounted : bool) (h : Hooks) :
  renders_while_mounted mounted [ev] = true ->
  mounted_flags mounted h ->
  mounted_flags (mounted_after mounted [ev]) (happen ev h).
Proof.
  intros Hok (Hm & Hn & Hv & Hp).
  destruct ev as [o| | |b| |f]; simpl in Hok; simpl mounted_after.
  - apply andb_true_iff in Hok as [-> _]. specialize (Hm eq_refl).
    unfold mounted_flags. simpl.
    destruct (viewModelRef h), (effect h); flags_tac.
  - unfold mounted_flags, happen, run_effect, initialize, initialize_ends.
    destruct (effect h) as [e|] eqn:Ee; [|rewrite Ee; flags_tac].
    destruct (viewModelRef h) as [vm0|] eqn:Ev; [|rewrite Ee, Ev; flags_tac].
    destruct (onInitialise e); simpl; flags_tac.
    all: try (rewrite Ev in *; flags_tac).
    all: idtac.
  - unfold mounted_flags, happen, run_cleanup.
    destruct (effect h) as [e|] eqn:Ee; [|rewrite Ee; flags_tac].
    destruct (viewModelRef h) as [vm0|] eqn:Ev; [|rewrite Ee, Ev; flags_tac].
    destruct (onDispose e); simpl; flags_tac.
  - destruct (settle_keeps b h) as (Ev & Ec & Ee & Er).
    unfold mounted_flags, happen. rewrite Ev, Ec, Ee, Er. flags_tac.
  - unfold mounted_flags, happen, rebuild. simpl. flags_tac.
  - unfold mounted_flags, happen, mutate. simpl.
    destruct (viewModelRef h) as [vm0|] eqn:Ev; flags_tac.
Qed.

Lemma mounted_flags_all (evs : list Happening) : forall mounted h,
  renders_while_mounted mounted evs = true ->
  mounted_flags mounted h ->
  mounted_flags (mounted_after mounted evs) (happen_all evs h).
Proof.
  induction evs as [|ev evs IH]; intros mounted h Hok Hinv; [exact Hinv|].
  rewrite happen_all_cons.
  assert (renders_while_mounted mounted [ev] = true /\
          renders_while_mounted (mounted_after mounted [ev]) evs = true) as [H1 H2].
  { destruct ev; simpl in *; auto.
    apply andb_true_iff in Hok as [-> Hok]. auto. }
  replace (mounted_after mounted (ev :: evs))
    with (mounted_after (mounted_after mounted [ev]) evs)
    by (destruct ev; reflexivity).
  apply IH; [exact H2|]. now apply mounted_flags_step.
Qed.

(** X15.  The hook writes [isMounted] into the ViewModel only while
    rendering, and React renders a component only while it is mounted.
    Hence, whatever happens in such an order, the ViewModel never shows
    [isMounted = false]: neither the object the hook keeps, nor any object
    it has passed to [onInitialise] or [onDispose], not even after the
    cleanup has set the hook's own flag to [false]. *)
Theorem isMounted_never_reads_false (evs : list Happening) :
  renders_while_mounted true evs = true ->
  (forall vm, viewModelRef (happen_all evs first_hooks) = Some vm ->
              isMounted vm = true) /\
  (forall vm, In vm (passed (called (happen_all evs first_hooks))) ->
              isMounted vm = true).
Proof.
  intros Hok.
  destruct (mounted_flags_all evs true first_hooks Hok) as (Hm & Hn & Hv & Hp).
  { split; [|split; [|split]]; simpl; auto; discriminate. }
  split; [exact Hv | exact Hp].
Qed.

(** ** The hook at work *)

(** X12 at work: the component is unmounted while [onInitialise] is still
    pending; the promise is fulfilled afterwards and nothing is updated. *)
Lemma no_initialisation_after_unmount_witness :
  isMountedRef (happen_all unmounted_early first_hooks) = false /\
  forallb (fun ev => negb (is_effect ev))
    [Settles true; Rebuilds; Renders counter_options] = true /\
  awaiting (happen_all unmounted_early first_hooks) = 1 /\
  isInitialisedState
    (happen_all [Settles true; Rebuilds; Renders counter_options]
       (happen_all unmounted_early first_hooks)) = false.
Proof.
  assert (isMountedRef (happen_all unmounted_early first_hooks) = false) as H0
    by by_running.
  assert (forallb (fun ev => negb (is_effect ev))
            [Settles true; Rebuilds; Renders counter_options] = true) as H1
    by by_running.
  destruct (no_initialisation_after_unmount
              [Settles true; Rebuilds; Renders counter_options]
              (happen_all unmounted_early first_hooks) H0 H1) as [E _].
  split; [exact H0|]. split; [exact H1|]. split; [by_running|].
  rewrite E. by_running.
Defined.

(** X13 at work: [onInitialise] is rejected on the first mount and again
    after a remount. *)
Lemma failed_initialisation_never_initialises_witness :
  first_render
    [Renders counter_options; RunsEffect; Settles false; Renders plain_options;
     RunsCleanup; RunsEffect; Settles false] = Some counter_options /\
  onInitialise counter_options = Some 1 /\
  isInitialisedState
    (happen_all
       [Renders counter_options; RunsEffect; Settles false; Renders plain_options;
        RunsCleanup; RunsEffect; Settles false] first_hooks) = false.
Proof.
  split; [reflexivity|]. split; [reflexivity|].
  apply (failed_initialisation_never_initialises _ counter_options 1);
    reflexivity.
Defined.

(** X14 at work: no callbacks; the component is even unmounted again
    before its next render. *)
Lemma initialises_at_mount_without_callback_witness :
  onInitialise plain_options = None /\
  isInitialised (fst (useViewModel plain_options first_hooks)) = false /\
  isInitialised
    (fst (useViewModel counter_options
            (happen_all (Renders plain_options :: RunsEffect :: [RunsCleanup; Rebuilds])
               first_hooks))) = true.
Proof.
  split; [reflexivity|].
  destruct (initialises_at_mount_without_callback plain_options counter_options
              [RunsCleanup; Rebuilds] eq_refl) as (A & _ & B).
  split; [exact A | exact B].
Defined.

(** X15 at work: after the cleanup the hook's own flag is [false], yet the
    ViewModel it has just passed to [onDispose] says [isMounted = true]. *)
Lemma isMounted_never_reads_false_witness :
  renders_while_mounted true unmounted_early = true /\
  isMountedRef (happen_all unmounted_early first_hooks) = false /\
  List.length (passed (called (happen_all unmounted_early first_hooks))) = 2 /\
  (forall vm, In vm (passed (called (happen_all unmounted_early first_hooks))) ->
              isMounted vm = true).
Proof.
  split; [reflexivity|]. split; [by_running|]. split; [by_running|].
  exact (proj2 (isMounted_never_reads_false unmounted_early eq_refl)).
Defined.

(** ** [useIsMounted], and the flag of [useViewModel] *)

Lemma isMounted_set (evs : list Happening) : forall h,
  effect_in_place h = true ->
  isMountedRef_current (isMounted_happen_all evs h) =
    mounted_after (isMountedRef_current h) evs.
Proof.
  induction evs as [|ev evs IH]; intros h Hh; [reflexivity|].
  change (isMounted_happen_all (ev :: evs) h)
    with (isMounted_happen_all evs (isMounted_happen ev h)).
  destruct ev; simpl;
    unfold isMounted_effect, isMounted_cleanup; try rewrite Hh;
    rewrite IH; auto.
Qed.

Lemma isMounted_unset (evs : list Happening) : forall h,
  effect_in_place h = false ->
  isMountedRef_current (isMounted_happen_all evs h) =
    match first_render evs with
    | Some _ => mounted_after (isMountedRef_current h) (after_first_render evs)
    | None => isMountedRef_current h
    end.
Proof.
  induction evs as [|ev evs IH]; intros h Hh; [reflexivity|].
  change (isMounted_happen_all (ev :: evs) h)
    with (isMounted_happen_all evs (isMounted_happen ev h)).
  destruct ev as [o| | |b| |f]; simpl first_render; simpl after_first_render.
  - now rewrite isMounted_set.
  - simpl. unfold isMounted_effect. rewrite Hh. now apply IH.
  - simpl. unfold isMounted_cleanup. rewrite Hh. now apply IH.
  - now apply IH.
  - now apply IH.
  - now apply IH.
Qed.

Lemma flag_set (evs : list Happening) : forall h,
  effect h <> None -> viewModelRef h <> None ->
  isMountedRef (happen_all evs h) = mounted_after (isMountedRef h) evs.
Proof.
  induction evs as [|ev evs IH]; intros h He Hv; [reflexivity|].
  rewrite happen_all_cons.
  destruct (effect h) as [e|] eqn:Ee; [|congruence].
  destruct (viewModelRef h) as [vm|] eqn:Ev; [|congruence].
  destruct (settle_keeps true h) as (S1 & _ & S2 & S3).
  destruct (settle_keeps false h) as (T1 & _ & T2 & T3).
  destruct ev as [o| | |b| |f]; simpl mounted_after.
  - rewrite IH; simpl; rewrite ?Ee, ?Ev; congruence.
  - rewrite IH; unfold happen, run_effect, initialize, initialize_ends;
      rewrite Ee, Ev; destruct (onInitialise e); simpl; rewrite ?Ee, ?Ev; congruence.
  - rewrite IH; unfold happen, run_cleanup; rewrite Ee, Ev; simpl;
      rewrite ?Ee, ?Ev; congruence.
  - destruct b; rewrite IH; simpl happen; congruence.
  - rewrite IH; simpl; rewrite ?Ee, ?Ev; congruence.
  - rewrite IH; simpl; rewrite ?Ee, ?Ev; congruence.
Qed.

Lemma flag_unset (evs : list Happening) : forall h,
  viewModelRef h = None ->
  isMountedRef (happen_all evs h) =
    match first_render evs with
    | Some _ => mounted_after (isMountedRef h) (after_first_render evs)
    | None => isMountedRef h
    end.
Proof.
  induction evs as [|ev evs IH]; intros h Hv; [reflexivity|].
  rewrite happen_all_cons.
  destruct ev as [o| | |b| |f]; simpl first_render; simpl after_first_render.
  - rewrite flag_set; simpl; [reflexivity| |congruence].
    destruct (effect h); congruence.
  - simpl happen. rewrite (proj1 (effect_without_render h Hv)). now apply IH.
  - simpl happen. rewrite (proj2 (effect_without_render h Hv)). now apply IH.
  - destruct (settle_keeps b h) as (S1 & _ & _ & S3).
    simpl happen. rewrite IH by congruence. now rewrite S3.
  - now rewrite IH.
  - rewrite IH; [reflexivity|]. simpl. now rewrite Hv.
Qed.

(** X16.  The function [useIsMounted()] returns reads the ref when it is
    called, not when the component was rendered: after any happenings it
    returns [false] exactly when, since the first render, a cleanup has run
    and the effect has not run after it; before the effect has run for the
    first time it already returns [true].  The flag [useViewModel] keeps for
    its own guard takes the same value after the same happenings. *)
Theorem useIsMounted_tells_the_last_effect_or_cleanup (evs : list Happening) :
  fst (useIsMounted first_isMounted) (isMounted_happen_all evs first_isMounted) =
    mounted_after true (after_first_render evs) /\
  isMountedRef (happen_all evs first_hooks) =
    mounted_after true (after_first_render evs).
Proof.
  split.
  - change (fst (useIsMounted first_isMounted)) with isMountedRef_current.
    rewrite isMounted_unset by reflexivity.
    destruct (first_render evs) eqn:E; [reflexivity|].
    clear - E. induction evs as [|[]]; simpl in *; auto; discriminate.
  - rewrite flag_unset by reflexivity.
    destruct (first_render evs) eqn:E; [reflexivity|].
    clear - E. induction evs as [|[]]; simpl in *; auto; discriminate.
Qed.

(** ** The members of the ViewModel *)




